(** * hola-web: the CSV decoder and the record filter of [src/app/page.tsx]

    A shallow embedding of [parseCSV], [parseDate] and the [filtered]
    predicate of the page component, and the properties of the decoder and
    of the filter proved over it.

    JavaScript strings are sequences of UTF-16 code units: a string is a
    [list N], one number per code unit.  A [Record<string, string>] built by
    key assignment on a fresh object literal is a finite map from strings to
    strings ([gmap]). *)

From Stdlib Require Import ZArith NArith List Bool Ascii String Lia.
From stdpp Require Import base option list gmap.
Import ListNotations.

Local Open Scope N_scope.

(** ** Strings *)

Abbreviation jsstring := (list N).

(** [js s] is the JavaScript string with the characters of [s]. *)
Fixpoint js (s : string) : jsstring :=
  match s with
  | EmptyString => []
  | String a s' => N_of_ascii a :: js s'
  end.

Arguments js : simpl never.

Definition DQUOTE : N := 34. (* the double quote *)
Definition COMMA  : N := 44. (* the comma *)
Definition LF     : N := 10. (* the line feed, \n *)
Definition CR     : N := 13. (* the carriage return, \r *)

(** [s] is not the empty string. *)
Definition nonempty (s : jsstring) : bool :=
  match s with [] => false | _ :: _ => true end.

(** The code units that [String.prototype.trim] strips: ECMAScript's
    WhiteSpace and LineTerminator productions. *)
Definition is_white_space (c : N) : bool :=
  (9 <=? c) && (c <=? 13)         (* TAB, LF, VT, FF, CR *)
  || (c =? 32)                    (* SPACE *)
  || (c =? 160)                   (* NO-BREAK SPACE *)
  || (c =? 5760)                  (* U+1680 *)
  || (8192 <=? c) && (c <=? 8202) (* U+2000 .. U+200A *)
  || (c =? 8232) || (c =? 8233)   (* LINE / PARAGRAPH SEPARATOR *)
  || (c =? 8239)                  (* U+202F *)
  || (c =? 8287)                  (* U+205F *)
  || (c =? 12288)                 (* U+3000 *)
  || (c =? 65279).                (* U+FEFF *)

Fixpoint trimStart (s : jsstring) : jsstring :=
  match s with
  | [] => []
  | c :: s' => if is_white_space c then trimStart s' else s
  end.

Definition trimEnd (s : jsstring) : jsstring := rev (trimStart (rev s)).

(** [s.trim()] *)
Definition trim (s : jsstring) : jsstring := trimEnd (trimStart s).

(** ** Records: plain objects used as string maps *)

Abbreviation JSRecord := (gmap (list N) (list N)).

(** [obj[k] = v] on an object created by [{}], for a string [v].  Every key
    creates or overwrites an own property, except [__proto__]: that
    assignment reaches the accessor inherited from [Object.prototype], whose
    setter ignores a value that is neither an object nor [null], so the
    object is left as it was. *)
Definition set_prop (obj : JSRecord) (k v : jsstring) : JSRecord :=
  if decide (k = js "__proto__") then obj else <[k := v]> obj.

(** ** The decoder: [parseCSV] *)

Module CSV.

(** The four locals of the scanning loop. *)
Record state := mkState {
  rows : list (list jsstring);
  row : list jsstring;
  cell : jsstring;
  inQuotes : bool
}.

Definition init : state :=
  {| rows := []; row := []; cell := []; inQuotes := false |}.

(** One iteration of the loop body, at [char = csvText[i]] with
    [next = csvText[i + 1]] ([None] past the end).  The boolean says
    whether the body ran [i++], which skips [next]. *)
Definition step (st : state) (char : N) (next : option N) : state * bool :=
  if inQuotes st then
    if (char =? DQUOTE) && bool_decide (next = Some DQUOTE) then
      (mkState (rows st) (row st) (cell st ++ [DQUOTE]) true, true)
    else if char =? DQUOTE then
      (mkState (rows st) (row st) (cell st) false, false)
    else
      (mkState (rows st) (row st) (cell st ++ [char]) true, false)
  else
    if char =? DQUOTE then
      (mkState (rows st) (row st) (cell st) true, false)
    else if char =? COMMA then
      (mkState (rows st) (row st ++ [cell st]) [] false, false)
    else if char =? LF then
      (mkState (rows st ++ [row st ++ [cell st]]) [] [] false, false)
    else if char =? CR then
      (st, false)
    else
      (mkState (rows st) (row st) (cell st ++ [char]) false, false).

(** The [for] loop over the text that is still to be read. *)
Fixpoint scan (csvText : jsstring) (st : state) : state :=
  match csvText with
  | [] => st
  | char :: rest =>
      let (st', skip) := step st char (head rest) in
      match skip, rest with
      | true, _ :: rest' => scan rest' st'
      | _, _ => scan rest st'
      end
  end.

(** "push last cell/row" *)
Definition flush (st : state) : list (list jsstring) :=
  if (0 <? length (cell st))%nat || (0 <? length (row st))%nat
  then rows st ++ [row st ++ [cell st]]
  else rows st.

(** The value of [rows] when the projection starts. *)
Definition parseRows (csvText : jsstring) : list (list jsstring) :=
  flush (scan csvText init).

(** The [.filter] callback: the row has a cell, and some cell is not the
    empty string. *)
Definition keepRow (r : list jsstring) : bool :=
  (0 <? length r)%nat && existsb nonempty r.

(** The [headers.forEach] of the [.map] callback from index [idx] on: the
    key is the trimmed header, the value the trimmed cell at the same index,
    the empty string when [cols[idx]] is undefined. *)
Fixpoint assignFrom (idx : nat) (headers cols : list jsstring) (obj : JSRecord)
  : JSRecord :=
  match headers with
  | [] => obj
  | h :: hs =>
      assignFrom (S idx) hs cols
        (set_prop obj (trim h) (trim (default [] (cols !! idx))))
  end.

(** The [.map] callback. *)
Definition toRecord (headers cols : list jsstring) : JSRecord :=
  assignFrom 0 headers cols ∅.

Definition parseCSV (csvText : jsstring) : list JSRecord :=
  match parseRows csvText with
  | [] => []
  | headers :: data => map (toRecord headers) (List.filter keepRow data)
  end.

End CSV.


(** ** Dates

    A [Date] object holds a time value: a whole number of milliseconds since
    the epoch, or NaN (an invalid date), here [None].  The functions below
    are the abstract operations of ECMAScript that [setHours] is made of.
    The host's time zone is a fixed offset [LocalTZA] from UTC, in
    milliseconds. *)

Module JSDate.

Local Open Scope Z_scope.

Record Date := mkDate { getTime : option Z }.

Definition msPerDay : Z := 86400000.
Definition maxTime : Z := 8640000000000000.

Definition Day (t : Z) : Z := t / msPerDay.
Definition MakeTime (hour min sec ms : Z) : Z :=
  hour * 3600000 + min * 60000 + sec * 1000 + ms.
Definition MakeDate (day time : Z) : Z := day * msPerDay + time.
Definition TimeClip (t : Z) : option Z :=
  if Z.abs t <=? maxTime then Some t else None.

Section Zone.
Variable LocalTZA : Z.

Definition LocalTime (t : Z) : Z := t + LocalTZA.
Definition UTC (t : Z) : Z := t - LocalTZA.

(** [d.setHours(hour, min, sec, ms)]: the time value that [d] holds
    afterwards. *)
Definition setHours (d : Date) (hour min sec ms : Z) : Date :=
  match getTime d with
  | None => mkDate None
  | Some tv =>
      let t := LocalTime tv in
      let date := MakeDate (Day t) (MakeTime hour min sec ms) in
      mkDate (TimeClip (UTC date))
  end.

End Zone.

(** [a < b] and [a > b] on [Date] objects compare the time values as
    numbers; a comparison with NaN is false. *)
Definition lt (a b : Date) : bool :=
  match getTime a, getTime b with
  | Some x, Some y => x <? y
  | _, _ => false
  end.

Definition gt (a b : Date) : bool := lt b a.

End JSDate.

(** ** The filter: [parseDate] and the [filtered] memo of [Page] *)

Module Page.

Import JSDate.

(** [s.startsWith(sub)] and [s.includes(sub)] *)
Fixpoint startsWith (s sub : jsstring) : bool :=
  match sub, s with
  | [], _ => true
  | _ :: _, [] => false
  | c :: sub', d :: s' => (c =? d) && startsWith s' sub'
  end.

Fixpoint includes (s sub : jsstring) : bool :=
  startsWith s sub ||
  match s with
  | [] => false
  | _ :: s' => includes s' sub
  end.

(** Truthiness of a value that is a string or [undefined]. *)
Definition truthy (v : option jsstring) : bool :=
  match v with
  | Some (_ :: _) => true
  | _ => false
  end.

(** [a || b] on such values, and on values that are an object or [null]. *)
Definition or_str (a b : option jsstring) : option jsstring :=
  if truthy a then a else b.

Definition or_obj {A} (a b : option A) : option A :=
  match a with
  | Some _ => a
  | None => b
  end.

Section Host.

(** The time value of [new Date(value)] for a string: the built-in date
    parser, [None] when the string is not a date. *)
Variable Date_parse : jsstring -> option Z.
(** The offset of local time from UTC, in milliseconds. *)
Variable LocalTZA : Z.
(** [String.prototype.toLowerCase] *)
Variable toLowerCase : jsstring -> jsstring.

Definition newDate (value : jsstring) : Date := mkDate (Date_parse value).

(** [parseDate]: [null] for an undefined or empty value and for a value
    whose date is invalid, the date otherwise. *)
Definition parseDate (value : option jsstring) : option Date :=
  if negb (truthy value) then None
  else
    let d := newDate (default [] value) in
    match getTime d with
    | None => None
    | Some _ => Some d
    end.

(** The locals [title], [tStart], [matchesText] and [inRange] of the
    callback that [data.filter] runs on each [row]. *)
Definition title (row : JSRecord) : option jsstring :=
  or_str (or_str (row !! js "Evento/titulo") (row !! js "Evento"))
         (row !! js "titulo").

Definition tStart (row : JSRecord) : option Date :=
  or_obj (or_obj (parseDate (row !! js "Timestamp Inicio"))
                 (parseDate (row !! js "Timestamp inicio")))
         (parseDate (row !! js "Inicio")).

Definition matchesText (query : jsstring) (row : JSRecord) : bool :=
  if nonempty query
  then includes (toLowerCase (default [] (title row))) (toLowerCase query)
  else true.

(** [endOfDay]: a copy of [e] after [setHours(23, 59, 59, 999)]. *)
Definition endOfDay (e : Date) : Date :=
  setHours LocalTZA (mkDate (getTime e)) 23 59 59 999.

Definition inRange (s e : option Date) (row : JSRecord) : bool :=
  match s, e with
  | None, None => true
  | _, _ =>
    match tStart row with
    | None => false
    | Some t =>
      if match s with Some sd => lt t sd | None => false end then false
      else
        match e with
        | Some ed => if gt t (endOfDay ed) then false else true
        | None => true
        end
    end
  end.

(** The bounds [s] and [e]: a [Date] when the input is not empty. *)
Definition bound (input : jsstring) : option Date :=
  if nonempty input then Some (newDate input) else None.

(** The callback of [data.filter], and the memo [filtered]. *)
Definition keep (startDate endDate query : jsstring) (row : JSRecord) : bool :=
  matchesText query row && inRange (bound startDate) (bound endDate) row.

Definition filtered (data : list JSRecord) (startDate endDate query : jsstring)
  : list JSRecord :=
  List.filter (keep startDate endDate query) data.

(** *** The resolution of the title and of the start instant, as the
    specification words it *)

Definition titleKeys : list jsstring :=
  [js "Evento/titulo"; js "Evento"; js "titulo"].

Definition startKeys : list jsstring :=
  [js "Timestamp Inicio"; js "Timestamp inicio"; js "Inicio"].

(** The first value among [keys] that is not empty. *)
Fixpoint firstNonEmpty (keys : list jsstring) (row : JSRecord)
  : option jsstring :=
  match keys with
  | [] => None
  | k :: ks =>
      match row !! k with
      | Some (c :: v) => Some (c :: v)
      | _ => firstNonEmpty ks row
      end
  end.

(** The instant of the first value among [keys] that parses as a date. *)
Fixpoint firstValidDate (keys : list jsstring) (row : JSRecord) : option Z :=
  match keys with
  | [] => None
  | k :: ks =>
      match row !! k ≫= Date_parse with
      | Some t => Some t
      | None => firstValidDate ks row
      end
  end.

(** The resolved start instant of a record, as a time value. *)
Definition startInstant (row : JSRecord) : option Z :=
  tStart row ≫= getTime.

(** The last millisecond, in UTC, of the local day that holds [e]. *)
Definition endOfLocalDay (e : Z) : Z :=
  UTC LocalTZA (MakeDate (Day (LocalTime LocalTZA e)) (MakeTime 23 59 59 999)).

End Host.

(** *** A host to run the filter on: local time one hour ahead of UTC, a
    date parser that knows the strings of the examples (a date alone is
    midnight UTC, a date with a time is local time), and lower-casing of the
    letters A to Z. *)

Definition sampleTZA : Z := 3600000.

Definition sampleParse (v : jsstring) : option Z :=
  if decide (v = js "2024-01-15") then Some 1705276800000%Z
  else if decide (v = js "2024-01-15T23:59:00") then Some 1705359540000%Z
  else if decide (v = js "2024-01-16T00:01:00") then Some 1705359660000%Z
  else if decide (v = js "2024-01-10T09:00:00") then Some 1704873600000%Z
  else None.

Definition sampleLower (s : jsstring) : jsstring :=
  map (fun c => if (65 <=? c) && (c <=? 90) then c + 32 else c) s.

(** A second host, five hours behind UTC. *)
Definition westTZA : Z := (-18000000)%Z.

Definition westParse (v : jsstring) : option Z :=
  if decide (v = js "2024-01-15") then Some 1705276800000%Z
  else if decide (v = js "2024-01-15T00:01:00") then Some 1705294860000%Z
  else None.

(** The parser of that host with one more string: a date with a time is
    local time, so 23:59:00 on 15 January is 04:59:00 UTC on 16 January. *)
Definition westParseLate (v : jsstring) : option Z :=
  if decide (v = js "2024-01-15T23:59:00") then Some 1705381140000%Z
  else westParse v.

Definition sameDayEvent : JSRecord :=
  {[ js "Evento" := js "Madrugada"; js "Timestamp Inicio" := js "2024-01-15T00:01:00" ]}.

Definition lateEvent : JSRecord :=
  {[ js "Evento" := js "Cierre"; js "Timestamp Inicio" := js "2024-01-15T23:59:00" ]}.
Definition nextDayEvent : JSRecord :=
  {[ js "Evento" := js "Resaca"; js "Timestamp Inicio" := js "2024-01-16T00:01:00" ]}.
Definition earlyEvent : JSRecord :=
  {[ js "titulo" := js "Feria"; js "Inicio" := js "2024-01-10T09:00:00" ]}.
Definition undatedEvent : JSRecord :=
  {[ js "Evento/titulo" := js "Sin fecha"; js "Timestamp Inicio" := js "pronto" ]}.

End Page.

(** ** Texts the properties are stated on *)

(** The text of a quoted field whose content is [content], without the
    enclosing quotes: every double quote is written twice. *)
Definition escapeQuotes (content : jsstring) : jsstring :=
  flat_map (fun c => if c =? DQUOTE then [DQUOTE; DQUOTE] else [c]) content.

(** The text [d] with every line feed preceded by a carriage return. *)
Definition toCRLF (d : jsstring) : jsstring :=
  flat_map (fun c => if c =? LF then [CR; LF] else [c]) d.

(** The documents of the decoder's development tests ([runParseCSVTests])
    and of its specification. *)
Definition devCsv1 : jsstring :=
  js "A,B" ++ [LF] ++ js "1,2" ++ [LF] ++ js "3,4" ++ [LF].
Definition devCsv2 : jsstring :=
  js "Col1,Col2" ++ [LF; DQUOTE] ++ js "a,b" ++ [DQUOTE; COMMA; DQUOTE]
  ++ js "c" ++ [DQUOTE; DQUOTE] ++ js "d" ++ [DQUOTE; LF; DQUOTE] ++ js "x"
  ++ [DQUOTE; COMMA; DQUOTE] ++ js "y" ++ [DQUOTE; LF].
Definition quotedRow : jsstring :=
  [DQUOTE] ++ js "a,b" ++ [DQUOTE; COMMA; DQUOTE] ++ js "c"
  ++ [DQUOTE; DQUOTE] ++ js "d" ++ [DQUOTE].
Definition quotedDoc : jsstring := js "Col1,Col2" ++ [LF] ++ quotedRow.
Definition lfDoc : jsstring := js "H1,H2" ++ [LF] ++ js "q1,q2" ++ [LF].
Definition crlfDoc : jsstring :=
  js "H1,H2" ++ [CR; LF] ++ js "q1,q2" ++ [CR; LF].
Definition unterminatedDoc : jsstring := js "C1,C2" ++ [LF] ++ js "val1,val2".
Definition headerOnlyDoc : jsstring := js "A,B" ++ [LF].
Definition duplicateHeaderDoc : jsstring := js "A,A" ++ [LF] ++ js "1,2".
Definition protoHeaderDoc : jsstring := js "__proto__,B" ++ [LF] ++ js "1,2,3".
Definition raggedProtoDoc : jsstring := js "A,__proto__" ++ [LF] ++ js "1".

(** ** A writer for the decoder's input

    A table is written line by line, the cells of a line separated by commas
    and every line ended by a line feed.  A cell comes with a flag: written
    between double quotes with its quotes doubled, or written as it is. *)

(** The characters that a cell written as it is cannot hold. *)
Definition special (c : N) : bool :=
  (c =? DQUOTE) || (c =? COMMA) || (c =? LF) || (c =? CR).

Definition writeCell (quoted : bool) (content : jsstring) : jsstring :=
  if quoted then DQUOTE :: escapeQuotes content ++ [DQUOTE] else content.

Fixpoint writeCells (r : list (bool * jsstring)) : jsstring :=
  match r with
  | [] => []
  | (q, c) :: r' =>
      match r' with
      | [] => writeCell q c
      | _ :: _ => writeCell q c ++ COMMA :: writeCells r'
      end
  end.

Definition writeRow (r : list (bool * jsstring)) : jsstring :=
  writeCells r ++ [LF].

Definition writeTable (t : list (list (bool * jsstring))) : jsstring :=
  flat_map writeRow t.

(** A cell can be written: it is quoted, or it holds no special character. *)
Definition writable (qc : bool * jsstring) : Prop :=
  fst qc = true \/ Forall (fun c => special c = false) (snd qc).

(** The number of line feeds of a text. *)
Definition countLF (text : jsstring) : nat :=
  length (List.filter (N.eqb LF) text).

(** Neither the first nor the last character of [s] is white space. *)
Definition outerSpaceFree (s : jsstring) : Prop :=
  forall c, head s = Some c \/ last s = Some c -> is_white_space c = false.

(** ** What a card and the modal show of a record

    The expressions of the [filtered.map] callback of [Page] and the [title]
    of its [Modal]. *)

Module Card.

Import Page.

(** The placeholder of a card without a title (its accented letter is the
    code unit 237), and the heading of a modal without one. *)
Definition sinTitulo : jsstring := js "(Sin t" ++ [237] ++ js "tulo)".
Definition detalle : jsstring := js "Detalle".

(** [a || b] where [b] is a string literal that is not empty. *)
Definition or_literal (a : option jsstring) (b : jsstring) : jsstring :=
  if truthy a then default [] a else b.

Definition cardTitle (row : JSRecord) : jsstring :=
  or_literal
    (or_str (or_str (row !! js "Evento/titulo") (row !! js "Evento"))
            (row !! js "titulo"))
    sinTitulo.

(** The chain ends in the empty string literal. *)
Definition cardTs (row : JSRecord) : jsstring :=
  default []
    (or_str (or_str (or_str (row !! js "Timestamp Inicio")
                            (row !! js "Timestamp inicio"))
                    (row !! js "Inicio"))
            (Some [])).

(** [selected?.[k]]: undefined when nothing is selected. *)
Definition optGet (selected : option JSRecord) (k : jsstring)
  : option jsstring :=
  selected ≫= (.!! k).

(** The [title] that [Page] passes to [Modal], which shows [title ?? Detalle]
    once more. *)
Definition modalTitle (selected : option JSRecord) : jsstring :=
  let passed :=
    default detalle
      (or_str (or_str (optGet selected (js "Evento/titulo"))
                      (optGet selected (js "Evento")))
              (optGet selected (js "titulo"))) in
  default detalle (Some passed).

End Card.

(** * Properties of the decoder *)

Module CSVFacts.

Import CSV.

(** ** The scanning loop, one character at a time *)

Lemma scan_nil st : scan [] st = st.
Proof. reflexivity. Qed.

Lemma scan_quoted_escape st rest :
  inQuotes st = true ->
  scan (DQUOTE :: DQUOTE :: rest) st
  = scan rest (mkState (rows st) (row st) (cell st ++ [DQUOTE]) true).
Proof. intros Hq. simpl. unfold step. rewrite Hq. reflexivity. Qed.

Lemma scan_quoted_close st rest :
  inQuotes st = true ->
  head rest <> Some DQUOTE ->
  scan (DQUOTE :: rest) st
  = scan rest (mkState (rows st) (row st) (cell st) false).
Proof.
  intros Hq Hn. simpl. unfold step. rewrite Hq.
  rewrite (bool_decide_eq_false_2 _ Hn). simpl. destruct rest; reflexivity.
Qed.

Lemma scan_quoted_literal st c rest :
  inQuotes st = true ->
  c <> DQUOTE ->
  scan (c :: rest) st
  = scan rest (mkState (rows st) (row st) (cell st ++ [c]) true).
Proof.
  intros Hq Hc. simpl. unfold step. rewrite Hq.
  apply N.eqb_neq in Hc. rewrite Hc. simpl. destruct rest; reflexivity.
Qed.

(** Outside quotes the loop never skips a character. *)
Lemma scan_unquoted st c rest :
  inQuotes st = false ->
  scan (c :: rest) st = scan rest (fst (step st c (head rest))).
Proof.
  intros Hq. simpl. unfold step. rewrite Hq.
  repeat (case (N.eqb_spec c _); intros ?); destruct rest; reflexivity.
Qed.

Lemma scan_unquoted_open st rest :
  inQuotes st = false ->
  scan (DQUOTE :: rest) st
  = scan rest (mkState (rows st) (row st) (cell st) true).
Proof. intros Hq. rewrite scan_unquoted by done. unfold step. rewrite Hq. reflexivity. Qed.

Lemma scan_unquoted_cr st rest :
  inQuotes st = false ->
  scan (CR :: rest) st = scan rest st.
Proof. intros Hq. rewrite scan_unquoted by done. unfold step. rewrite Hq. reflexivity. Qed.

Lemma step_unquoted_stays st c next :
  inQuotes st = false -> c <> DQUOTE ->
  inQuotes (fst (step st c next)) = false.
Proof.
  intros Hq Hc. unfold step. rewrite Hq.
  apply N.eqb_neq in Hc. rewrite Hc.
  repeat (case (N.eqb_spec c _); intros ?); simpl; done.
Qed.

(** Outside quotes the step does not look at [next]. *)
Lemma step_unquoted_next st c next next' :
  inQuotes st = false -> step st c next = step st c next'.
Proof. intros Hq. unfold step. rewrite Hq. reflexivity. Qed.

(** ** A whole quoted field *)

Lemma scan_quoted_body content : forall st rest,
  inQuotes st = true ->
  head rest <> Some DQUOTE ->
  scan (escapeQuotes content ++ DQUOTE :: rest) st
  = scan rest (mkState (rows st) (row st) (cell st ++ content) false).
Proof.
  induction content as [|c content IH]; intros st rest Hq Hrest.
  - change (escapeQuotes [] ++ DQUOTE :: rest) with (DQUOTE :: rest).
    rewrite scan_quoted_close by done. by rewrite app_nil_r.
  - unfold escapeQuotes. simpl flat_map. fold (escapeQuotes content).
    case (N.eqb_spec c DQUOTE); intros Hc.
    + subst c. change (([DQUOTE; DQUOTE] ++ escapeQuotes content) ++ DQUOTE :: rest)
        with (DQUOTE :: DQUOTE :: (escapeQuotes content ++ DQUOTE :: rest)).
      rewrite scan_quoted_escape by done.
      rewrite IH by done. simpl. by rewrite <- app_assoc.
    + change (([c] ++ escapeQuotes content) ++ DQUOTE :: rest)
        with (c :: (escapeQuotes content ++ DQUOTE :: rest)).
      rewrite scan_quoted_literal by done.
      rewrite IH by done. simpl. by rewrite <- app_assoc.
Qed.

Lemma scan_quoted_field content st rest :
  inQuotes st = false ->
  head rest <> Some DQUOTE ->
  scan (DQUOTE :: escapeQuotes content ++ DQUOTE :: rest) st
  = scan rest (mkState (rows st) (row st) (cell st ++ content) false).
Proof.
  intros Hq Hrest. rewrite scan_unquoted_open by done.
  by rewrite scan_quoted_body.
Qed.

(** ** Appending a character that is not a double quote *)

Lemma step_next_not_quote st c d :
  d <> DQUOTE -> step st c (Some d) = step st c None.
Proof.
  intros Hd. unfold step.
  rewrite (bool_decide_eq_false_2 (Some d = Some DQUOTE)) by congruence.
  rewrite (bool_decide_eq_false_2 (None = Some DQUOTE)) by congruence.
  reflexivity.
Qed.

Lemma step_skip_next st c next :
  snd (step st c next) = true -> next = Some DQUOTE.
Proof.
  unfold step. destruct (inQuotes st).
  - case (N.eqb_spec c DQUOTE); intros ?; simpl.
    + case_bool_decide; [done | simpl; discriminate].
    + discriminate.
  - repeat (case (N.eqb_spec c _); intros ?); simpl; discriminate.
Qed.

Lemma scan_snoc_bounded c (Hc : c <> DQUOTE) (n : nat) : forall text st,
  (length text <= n)%nat ->
  scan (text ++ [c]) st = fst (step (scan text st) c None).
Proof.
  induction n as [|n IH]; intros text st Hlen.
  - destruct text; [|simpl in Hlen; lia].
    simpl. destruct (step st c None) as [st' [|]]; reflexivity.
  - destruct text as [|a text].
    { simpl. destruct (step st c None) as [st' [|]]; reflexivity. }
    simpl in Hlen. destruct text as [|b text].
    + simpl app. simpl scan at 2.
      change (scan [a; c] st) with
        (let (st', skip) := step st a (Some c) in
         match skip with true => scan [] st' | false => scan [c] st' end).
      rewrite (step_next_not_quote st a c Hc).
      pose proof (step_skip_next st a None) as Hskip.
      destruct (step st a None) as [st' [|]]; simpl in Hskip.
      * specialize (Hskip eq_refl). discriminate.
      * apply (IH [] st'). simpl. lia.
    + change (scan ((a :: b :: text) ++ [c]) st) with
        (let (st', skip) := step st a (Some b) in
         match skip with
         | true => scan (text ++ [c]) st'
         | false => scan ((b :: text) ++ [c]) st'
         end).
      change (scan (a :: b :: text) st) with
        (let (st', skip) := step st a (Some b) in
         match skip with
         | true => scan text st'
         | false => scan (b :: text) st'
         end).
      destruct (step st a (Some b)) as [st' [|]].
      * apply IH. simpl in Hlen. lia.
      * apply IH. simpl in *. lia.
Qed.

Lemma scan_snoc text st c :
  c <> DQUOTE ->
  scan (text ++ [c]) st = fst (step (scan text st) c None).
Proof. intros Hc. by apply (scan_snoc_bounded c Hc (length text)). Qed.

(** ** Line endings *)

Lemma scan_toCRLF d : forall st,
  inQuotes st = false ->
  DQUOTE ∉ d ->
  scan (toCRLF d) st = scan d st.
Proof.
  induction d as [|c d IH]; intros st Hq Hd; [reflexivity|].
  apply not_elem_of_cons in Hd as [Hc Hd].
  assert (c <> DQUOTE) as Hc' by congruence.
  unfold toCRLF. simpl flat_map. fold (toCRLF d).
  rewrite (scan_unquoted st c d Hq).
  case (N.eqb_spec c LF); intros Hlf.
  - subst c. change ([CR; LF] ++ toCRLF d) with (CR :: LF :: toCRLF d).
    rewrite scan_unquoted_cr by done.
    rewrite (scan_unquoted st LF (toCRLF d) Hq).
    rewrite (step_unquoted_next st LF (head (toCRLF d)) (head d) Hq).
    apply IH; [by apply step_unquoted_stays | done].
  - change ([c] ++ toCRLF d) with (c :: toCRLF d).
    rewrite (scan_unquoted st c (toCRLF d) Hq).
    rewrite (step_unquoted_next st c (head (toCRLF d)) (head d) Hq).
    apply IH; [by apply step_unquoted_stays | done].
Qed.

(** ** The flush after the loop *)

Lemma flush_pending st :
  cell st <> [] \/ row st <> [] ->
  flush st = rows st ++ [row st ++ [cell st]].
Proof.
  intros H. unfold flush.
  destruct (cell st), (row st); simpl; try reflexivity.
  destruct H; congruence.
Qed.

Lemma flush_nothing st :
  cell st = [] -> row st = [] -> flush st = rows st.
Proof. intros Hc Hr. unfold flush. by rewrite Hc, Hr. Qed.

Lemma parseRows_line_feed text :
  inQuotes (scan text init) = false ->
  parseRows (text ++ [LF])
  = rows (scan text init) ++ [row (scan text init) ++ [cell (scan text init)]].
Proof.
  intros Hq. unfold parseRows.
  rewrite scan_snoc by done.
  unfold step. rewrite Hq. simpl. reflexivity.
Qed.

End CSVFacts.

(** * Properties of the projection of rows to records *)

Module RecordFacts.

Import CSV.

Lemma trim_empty : trim [] = [].
Proof. reflexivity. Qed.

Lemma lookup_set_prop obj k v k' :
  k <> js "__proto__" ->
  set_prop obj k v !! k' = if decide (k = k') then Some v else obj !! k'.
Proof.
  intros Hk. unfold set_prop. rewrite decide_False by done.
  apply lookup_insert.
Qed.

Lemma lookup_set_prop_other obj k v k' :
  k <> k' -> set_prop obj k v !! k' = obj !! k'.
Proof.
  intros Hk. unfold set_prop. case_decide; [done|].
  by apply lookup_insert_ne.
Qed.

Lemma assignFrom_lookup_other cols k : forall hs idx obj,
  ~ In k (map trim hs) ->
  assignFrom idx hs cols obj !! k = obj !! k.
Proof.
  induction hs as [|h hs IH]; intros idx obj Hk; [reflexivity|].
  simpl in *. rewrite IH by tauto.
  apply lookup_set_prop_other. tauto.
Qed.

(** The own keys after the assignments. *)
Lemma assignFrom_keys cols k : forall hs idx obj,
  is_Some (assignFrom idx hs cols obj !! k)
  <-> is_Some (obj !! k) \/ (In k (map trim hs) /\ k <> js "__proto__").
Proof.
  induction hs as [|h hs IH]; intros idx obj; simpl.
  - tauto.
  - rewrite IH. unfold set_prop. case_decide as Hp.
    + split; [intros [?|[? ?]]; tauto|].
      intros [?|[[?|?] ?]]; [tauto|congruence|tauto].
    + destruct (decide (trim h = k)) as [Heq|Hne].
      * rewrite Heq, lookup_insert_eq. split; [|by eauto].
        intros _. right. split; [by left | congruence].
      * rewrite lookup_insert_ne by done.
        split; [intros [?|[? ?]]; tauto|].
        intros [?|[[?|?] ?]]; [tauto|congruence|tauto].
Qed.

Lemma assignFrom_size cols : forall hs idx obj,
  NoDup (map trim hs) ->
  ~ In (js "__proto__") (map trim hs) ->
  (forall h, In h hs -> obj !! trim h = None) ->
  size (assignFrom idx hs cols obj) = (size obj + length hs)%nat.
Proof.
  induction hs as [|h hs IH]; intros idx obj Hnd Hp Hfresh; simpl.
  - lia.
  - simpl in Hnd, Hp. apply NoDup_cons in Hnd as [Hh Hnd].
    rewrite IH; [| done | tauto |].
    + unfold set_prop. rewrite decide_False by (intros E; apply Hp; by left).
      rewrite map_size_insert_None by (apply Hfresh; by left). lia.
    + intros h' Hin. rewrite lookup_set_prop_other.
      * apply Hfresh. by right.
      * intros E. apply Hh. rewrite E. apply list_elem_of_In.
        by apply in_map.
Qed.

(** With distinct keys, every header's key holds the trimmed cell at the
    header's index. *)
Lemma assignFrom_lookup_at cols : forall hs idx obj i h,
  NoDup (map trim hs) ->
  ~ In (js "__proto__") (map trim hs) ->
  hs !! i = Some h ->
  assignFrom idx hs cols obj !! trim h
  = Some (trim (default [] (cols !! (idx + i)%nat))).
Proof.
  induction hs as [|h0 hs IH]; intros idx obj i h Hnd Hp Hi; [done|].
  simpl in Hnd, Hp. apply NoDup_cons in Hnd as [Hh Hnd].
  destruct i as [|i]; simpl in Hi.
  - injection Hi as ->. simpl.
    rewrite assignFrom_lookup_other.
    + rewrite lookup_set_prop by tauto. rewrite decide_True by done.
      by rewrite Nat.add_0_r.
    + intros Hin. apply Hh. by apply list_elem_of_In.
  - simpl. rewrite (IH (S idx) _ i h); [| done | tauto | done].
    by rewrite Nat.add_succ_r.
Qed.

(** Past the end of the row every assignment writes the empty string. *)
Lemma assignFrom_beyond cols k : forall hs idx obj,
  (length cols <= idx)%nat ->
  obj !! k = Some [] ->
  assignFrom idx hs cols obj !! k = Some [].
Proof.
  induction hs as [|h hs IH]; intros idx obj Hlen Hk; [done|].
  simpl. apply IH; [lia|].
  rewrite (proj2 (lookup_ge_None cols idx)) by lia. simpl.
  unfold set_prop. case_decide; [done|].
  destruct (decide (trim h = k)) as [->|Hne].
  - by rewrite lookup_insert_eq.
  - by rewrite lookup_insert_ne.
Qed.

Lemma assignFrom_missing cols : forall hs idx obj i h,
  hs !! i = Some h ->
  (length cols <= idx + i)%nat ->
  trim h <> js "__proto__" ->
  assignFrom idx hs cols obj !! trim h = Some [].
Proof.
  induction hs as [|h0 hs IH]; intros idx obj i h Hi Hlen Hp; [done|].
  destruct i as [|i]; simpl in Hi.
  - injection Hi as ->. simpl. apply assignFrom_beyond; [lia|].
    rewrite (proj2 (lookup_ge_None cols idx)) by lia. simpl.
    rewrite lookup_set_prop by done. by rewrite decide_True.
  - simpl. apply (IH (S idx) _ i h); [done | lia | done].
Qed.

(** Cells at an index past the last header are never read. *)
Lemma assignFrom_take cols : forall hs idx obj,
  assignFrom idx hs (take (idx + length hs) cols) obj
  = assignFrom idx hs cols obj.
Proof.
  induction hs as [|h hs IH]; intros idx obj; [reflexivity|].
  simpl. rewrite lookup_take_lt by lia.
  rewrite Nat.add_succ_r. apply (IH (S idx)).
Qed.

Lemma keepRow_spec r :
  keepRow r = true <-> exists v, In v r /\ v <> [].
Proof.
  unfold keepRow. rewrite andb_true_iff, existsb_exists. split.
  - intros [_ (v & Hin & Hv)]. exists v. split; [done|]. by destruct v.
  - intros (v & Hin & Hv). split.
    + destruct r; [destruct Hin | reflexivity].
    + exists v. split; [done|]. by destruct v.
Qed.

Lemma keepRow_blank r :
  Forall (fun v => v = []) r -> keepRow r = false.
Proof.
  intros Hall. apply not_true_is_false. rewrite keepRow_spec.
  intros (v & Hin & Hv). rewrite Forall_forall in Hall.
  apply Hv, Hall. by apply list_elem_of_In.
Qed.

Lemma filter_all_kept (data : list (list jsstring)) :
  Forall (fun r => keepRow r = true) data -> List.filter keepRow data = data.
Proof.
  induction 1 as [|r data Hr _ IH]; [reflexivity|].
  simpl. by rewrite Hr, IH.
Qed.

End RecordFacts.

(** * The decoder's claims *)

Import CSV CSVFacts RecordFacts.

(** The assertions of [runParseCSVTests] hold of the embedding. *)
Example dev_tests :
  (length (parseCSV devCsv1) = 2%nat
   /\ (parseCSV devCsv1 !! 0%nat) ≫= (.!! js "A") = Some (js "1")
   /\ (parseCSV devCsv1 !! 0%nat) ≫= (.!! js "B") = Some (js "2"))
  /\ (length (parseCSV devCsv2) = 2%nat
      /\ (parseCSV devCsv2 !! 0%nat) ≫= (.!! js "Col1") = Some (js "a,b")
      /\ (parseCSV devCsv2 !! 0%nat) ≫= (.!! js "Col2")
         = Some (js "c" ++ [DQUOTE] ++ js "d"))
  /\ (length (parseCSV crlfDoc) = 1%nat
      /\ (parseCSV crlfDoc !! 0%nat) ≫= (.!! js "H1") = Some (js "q1")
      /\ (parseCSV crlfDoc !! 0%nat) ≫= (.!! js "H2") = Some (js "q2"))
  /\ (length (parseCSV unterminatedDoc) = 1%nat
      /\ (parseCSV unterminatedDoc !! 0%nat) ≫= (.!! js "C1") = Some (js "val1")).
Proof. repeat split; vm_compute; reflexivity. Qed.

(** C1. Quoted fields follow the two-state machine.  Inside a quoted field a
    double quote followed by a double quote adds one double quote to the cell
    and consumes both characters; a double quote not followed by one ends the
    quoted field; any other character (comma, line feed and carriage return
    included) is added to the cell.  So a whole quoted field, with its quotes
    doubled, adds exactly its content to the cell.  Under the headers
    Col1,Col2 the row of the two quoted fields [a,b] and [c], doubled quote,
    [d] decodes to the one record that maps Col1 to [a,b] and Col2 to [c],
    quote, [d]. *)
Theorem C1_quoted_fields :
  (forall st rest,
     inQuotes st = true ->
     scan (DQUOTE :: DQUOTE :: rest) st
     = scan rest (mkState (rows st) (row st) (cell st ++ [DQUOTE]) true))
  /\ (forall st rest,
     inQuotes st = true -> head rest <> Some DQUOTE ->
     scan (DQUOTE :: rest) st
     = scan rest (mkState (rows st) (row st) (cell st) false))
  /\ (forall st c rest,
     inQuotes st = true -> c <> DQUOTE ->
     scan (c :: rest) st
     = scan rest (mkState (rows st) (row st) (cell st ++ [c]) true))
  /\ (forall content st rest,
     inQuotes st = false -> head rest <> Some DQUOTE ->
     scan (DQUOTE :: escapeQuotes content ++ DQUOTE :: rest) st
     = scan rest (mkState (rows st) (row st) (cell st ++ content) false))
  /\ parseCSV quotedDoc
     = [ {[ js "Col1" := js "a,b"; js "Col2" := js "c" ++ [DQUOTE] ++ js "d" ]} ].
Proof.
  split; [exact scan_quoted_escape|].
  split; [exact scan_quoted_close|].
  split; [exact scan_quoted_literal|].
  split; [exact scan_quoted_field|].
  vm_compute. reflexivity.
Qed.

Lemma C1_quoted_fields_witness :
  scan (DQUOTE :: escapeQuotes (js "a,b") ++ DQUOTE :: js ",c") init
  = scan (js ",c") (mkState [] [] (js "a,b") false).
Proof.
  apply (proj1 (proj2 (proj2 (proj2 C1_quoted_fields))) (js "a,b") init (js ",c")).
  - reflexivity.
  - discriminate.
Defined.

(** C6. A carriage return met outside a quoted field leaves the cell, the
    row and the rows as they are.  So a document without quotes decodes the
    same with CR LF line endings as with LF line endings, and the documents
    H1,H2 CR LF q1,q2 CR LF and H1,H2 LF q1,q2 LF both decode to the one
    record that maps H1 to q1 and H2 to q2. *)
Theorem C6_carriage_return :
  (forall st rest,
     inQuotes st = false -> scan (CR :: rest) st = scan rest st)
  /\ (forall d, DQUOTE ∉ d -> parseCSV (toCRLF d) = parseCSV d)
  /\ crlfDoc = toCRLF lfDoc
  /\ parseCSV crlfDoc = [ {[ js "H1" := js "q1"; js "H2" := js "q2" ]} ]
  /\ parseCSV lfDoc = [ {[ js "H1" := js "q1"; js "H2" := js "q2" ]} ].
Proof.
  split; [exact scan_unquoted_cr|].
  split.
  { intros d Hd. unfold parseCSV, parseRows.
    by rewrite scan_toCRLF. }
  split; [reflexivity|].
  split; vm_compute; reflexivity.
Qed.

Lemma C6_carriage_return_witness :
  parseCSV (toCRLF (js "a,b" ++ [LF] ++ js "1,2" ++ [LF]))
  = parseCSV (js "a,b" ++ [LF] ++ js "1,2" ++ [LF]).
Proof.
  apply (proj1 (proj2 C6_carriage_return)).
  vm_compute. intros H. by repeat (apply elem_of_cons in H as [H|H]; [discriminate H|]);
    apply elem_of_nil in H.
Defined.

(** C7. When the loop ends with a cell that has content, or with a row that
    already holds a cell, the cell is added to the row and the row to the
    rows; when it ends with neither, nothing is added.  So a last line
    decodes the same without its line feed as with it, and the document
    C1,C2 LF val1,val2 decodes to the one record that maps C1 to val1 and C2
    to val2. *)
Theorem C7_final_row :
  (forall text,
     cell (scan text init) <> [] \/ row (scan text init) <> [] ->
     parseRows text
     = rows (scan text init)
       ++ [row (scan text init) ++ [cell (scan text init)]])
  /\ (forall text,
     cell (scan text init) = [] -> row (scan text init) = [] ->
     parseRows text = rows (scan text init))
  /\ (forall text,
     inQuotes (scan text init) = false ->
     cell (scan text init) <> [] \/ row (scan text init) <> [] ->
     parseCSV text = parseCSV (text ++ [LF]))
  /\ parseCSV unterminatedDoc
     = [ {[ js "C1" := js "val1"; js "C2" := js "val2" ]} ].
Proof.
  split; [intros text H; by apply flush_pending|].
  split; [intros text Hc Hr; by apply flush_nothing|].
  split.
  { intros text Hq H. unfold parseCSV.
    rewrite parseRows_line_feed by done.
    unfold parseRows. by rewrite flush_pending. }
  vm_compute. reflexivity.
Qed.

Lemma C7_final_row_witness :
  parseCSV unterminatedDoc = parseCSV (unterminatedDoc ++ [LF]).
Proof.
  apply (proj1 (proj2 (proj2 C7_final_row)) unterminatedDoc).
  - reflexivity.
  - left. vm_compute. discriminate.
Defined.

(** C8. A data row is dropped exactly when every cell of it is the empty
    string: the output is the projection, in order, of the data rows that
    have a cell with content.  The header-only document A,B LF and the empty
    document both decode to the empty sequence. *)
Theorem C8_blank_rows :
  (forall r, keepRow r = false <-> Forall (fun v => v = []) r)
  /\ (forall text headers data,
       parseRows text = headers :: data ->
       parseCSV text
       = map (toRecord headers) (List.filter (existsb nonempty) data))
  /\ (forall text, parseRows text = [] -> parseCSV text = [])
  /\ parseCSV headerOnlyDoc = []
  /\ parseCSV [] = [].
Proof.
  split.
  { intros r. split; [|apply keepRow_blank].
    intros Hk. apply Forall_forall. intros v Hv.
    destruct v as [|c v]; [done|]. exfalso.
    apply not_true_iff_false in Hk. apply Hk, keepRow_spec.
    exists (c :: v). split; [by apply list_elem_of_In | done]. }
  split.
  { intros text headers data Hrows. unfold parseCSV. rewrite Hrows.
    f_equal. apply filter_ext. intros r. unfold keepRow.
    by destruct r. }
  split.
  { intros text Hrows. unfold parseCSV. by rewrite Hrows. }
  split; reflexivity.
Qed.

Lemma C8_blank_rows_witness :
  parseCSV (js "A,B" ++ [LF] ++ js "," ++ [LF] ++ js "1,2" ++ [LF])
  = map (toRecord [js "A"; js "B"])
        (List.filter (existsb nonempty) [[ []; [] ]; [js "1"; js "2"]]).
Proof.
  apply (proj1 (proj2 C8_blank_rows)). reflexivity.
Defined.

(** C3, as the code has it.  When the trimmed header names are pairwise
    distinct and none of them is [__proto__], every record of the output has
    exactly as many keys as the header row has columns and maps each header's
    key to the trimmed cell at the header's index; when no data row is blank
    there is one record per data row, in order; and a data row with fewer
    cells than the header maps the key of each header past its end to the
    empty string. *)
Theorem C3_record_keys text headers data :
  parseRows text = headers :: data ->
  NoDup (map trim headers) ->
  ~ In (js "__proto__") (map trim headers) ->
  (forall r, In r (parseCSV text) -> size r = length headers)
  /\ (Forall (fun cols => keepRow cols = true) data ->
      parseCSV text = map (toRecord headers) data)
  /\ (forall cols i h,
        headers !! i = Some h ->
        toRecord headers cols !! trim h
        = Some (trim (default [] (cols !! i))))
  /\ (forall cols i h,
        headers !! i = Some h -> (length cols <= i)%nat ->
        toRecord headers cols !! trim h = Some []).
Proof.
  intros Hrows Hnd Hp. unfold parseCSV. rewrite Hrows.
  split.
  { intros r Hr. apply in_map_iff in Hr as (cols & <- & _).
    unfold toRecord. rewrite assignFrom_size; [| done | done |].
    - by rewrite map_size_empty.
    - intros h _. apply lookup_empty. }
  split.
  { intros Hall. by rewrite filter_all_kept. }
  split.
  { intros cols i h Hi. unfold toRecord.
    by rewrite (assignFrom_lookup_at cols headers 0 ∅ i h). }
  intros cols i h Hi Hlen. unfold toRecord.
  apply (assignFrom_missing cols headers 0 ∅ i h); [done | simpl; lia |].
  intros E. apply Hp. rewrite <- E. apply in_map.
  apply list_elem_of_In. by eapply list_elem_of_lookup_2.
Qed.

Lemma C3_record_keys_witness :
  (forall r, In r (parseCSV unterminatedDoc) -> size r = 2%nat)
  /\ parseCSV unterminatedDoc
     = [toRecord [js "C1"; js "C2"] [js "val1"; js "val2"]].
Proof.
  destruct (C3_record_keys unterminatedDoc [js "C1"; js "C2"]
              [[js "val1"; js "val2"]]) as (Hsize & Hall & _).
  - reflexivity.
  - apply (bool_decide_unpack (NoDup (map trim [js "C1"; js "C2"]))).
    vm_compute. exact I.
  - simpl. intros [H|[H|[]]]; discriminate H.
  - split; [exact Hsize|].
    apply Hall. repeat constructor.
Defined.

(** C3 as stated fails: two headers with one name give a record with one
    key, and a header named [__proto__] gives no key at all, also when it is
    a header past the end of a ragged row. *)
Lemma C3_counterexample :
  (parseRows duplicateHeaderDoc = [[js "A"; js "A"]; [js "1"; js "2"]]
   /\ keepRow [js "1"; js "2"] = true
   /\ parseCSV duplicateHeaderDoc = [ {[ js "A" := js "2" ]} ]
   /\ size ({[ js "A" := js "2" ]} : JSRecord) = 1%nat
   /\ length [js "A"; js "A"] = 2%nat)
  /\ (parseRows raggedProtoDoc = [[js "A"; js "__proto__"]; [js "1"]]
      /\ parseCSV raggedProtoDoc = [ {[ js "A" := js "1" ]} ]
      /\ ({[ js "A" := js "1" ]} : JSRecord) !! js "__proto__" = None).
Proof. repeat split; vm_compute; reflexivity. Qed.

(** X21. The record of a row does not depend on the cells at an index past
    the last header column: it is the record of the row cut to the length of
    the header, so the cells a row has beyond the header are ignored.  When
    no trimmed header is [__proto__], the keys of the record are exactly the
    trimmed header names. *)
Theorem X21_extra_cells_ignored :
  (forall headers cols,
     toRecord headers cols = toRecord headers (take (length headers) cols))
  /\ (forall headers cols extra,
       (length headers <= length cols)%nat ->
       toRecord headers (cols ++ extra) = toRecord headers cols)
  /\ (forall headers cols k,
       ~ In (js "__proto__") (map trim headers) ->
       is_Some (toRecord headers cols !! k) <-> In k (map trim headers))
  /\ (forall text headers data r k,
       parseRows text = headers :: data ->
       ~ In (js "__proto__") (map trim headers) ->
       In r (parseCSV text) ->
       is_Some (r !! k) <-> In k (map trim headers)).
Proof.
  assert (forall headers cols,
    toRecord headers cols = toRecord headers (take (length headers) cols))
    as Htake.
  { intros headers cols. unfold toRecord.
    symmetry. apply (assignFrom_take cols headers 0 ∅). }
  assert (forall headers cols k,
    ~ In (js "__proto__") (map trim headers) ->
    is_Some (toRecord headers cols !! k) <-> In k (map trim headers)) as Hkeys.
  { intros headers cols k Hp. unfold toRecord. rewrite assignFrom_keys.
    rewrite lookup_empty. split.
    - intros [[? H]|[H _]]; [discriminate H | exact H].
    - intros H. right. split; [exact H|]. intros E. apply Hp. by rewrite <- E. }
  split; [exact Htake|].
  split.
  { intros headers cols extra Hlen.
    rewrite (Htake headers (cols ++ extra)), (Htake headers cols).
    by rewrite take_app_le. }
  split; [exact Hkeys|].
  intros text headers data r k Hrows Hp Hr.
  unfold parseCSV in Hr. rewrite Hrows in Hr.
  apply in_map_iff in Hr as (cols & <- & _). by apply Hkeys.
Qed.

Lemma X21_extra_cells_ignored_witness :
  toRecord [js "A"; js "B"] ([js "1"; js "2"] ++ [js "3"])
  = toRecord [js "A"; js "B"] [js "1"; js "2"].
Proof.
  apply (proj1 (proj2 X21_extra_cells_ignored)). simpl. lia.
Defined.

(** C10 on a header named [__proto__].  Under the headers [__proto__], B
    the row 1,2,3 has more cells than the header; the claim gives its record
    the keys [__proto__] and B, and the code gives it the key B alone: the
    assignment under the key [__proto__] creates no key, unlike the
    assignment under every other header. *)
Theorem C10_proto_header_failing_input :
  parseRows protoHeaderDoc
  = [[js "__proto__"; js "B"]; [js "1"; js "2"; js "3"]]
  /\ parseCSV protoHeaderDoc = [ {[ js "B" := js "2" ]} ]
  /\ In (js "__proto__") (map trim [js "__proto__"; js "B"])
  /\ ({[ js "B" := js "2" ]} : JSRecord) !! js "__proto__" = None.
Proof.
  split; [vm_compute; reflexivity|].
  split; [vm_compute; reflexivity|].
  split; [left; vm_compute; reflexivity|].
  vm_compute; reflexivity.
Qed.

(** * Properties of the filter *)

Module FilterFacts.

Import JSDate Page.

Local Open Scope Z_scope.

Section Host.

Variable Date_parse : jsstring -> option Z.
Variable LocalTZA : Z.
Variable toLowerCase : jsstring -> jsstring.

Local Abbreviation parseDate := (parseDate Date_parse).
Local Abbreviation tStart := (tStart Date_parse).
Local Abbreviation startInstant := (startInstant Date_parse).
Local Abbreviation firstValidDate := (firstValidDate Date_parse).
Local Abbreviation newDate := (newDate Date_parse).
Local Abbreviation bound := (bound Date_parse).
Local Abbreviation inRange := (inRange Date_parse LocalTZA).
Local Abbreviation endOfLocalDay := (endOfLocalDay LocalTZA).

(** ** The fallback chains *)

Lemma or_str_first (a b : option jsstring) :
  default [] (or_str a b)
  = match a with
    | Some (c :: v) => c :: v
    | _ => default [] b
    end.
Proof. unfold or_str. by destruct a as [[|c v]|]. Qed.

Lemma title_firstNonEmpty row :
  default [] (title row) = default [] (firstNonEmpty titleKeys row).
Proof.
  unfold title, titleKeys, firstNonEmpty, or_str.
  destruct (row !! js "Evento/titulo") as [[|c1 v1]|]; simpl;
  destruct (row !! js "Evento") as [[|c2 v2]|]; simpl;
  destruct (row !! js "titulo") as [[|c3 v3]|]; reflexivity.
Qed.

Lemma title_found row v :
  firstNonEmpty titleKeys row = Some v -> title row = Some v.
Proof.
  unfold title, titleKeys, firstNonEmpty, or_str.
  destruct (row !! js "Evento/titulo") as [[|c1 v1]|]; simpl;
  destruct (row !! js "Evento") as [[|c2 v2]|]; simpl;
  destruct (row !! js "titulo") as [[|c3 v3]|]; congruence.
Qed.

Lemma parseDate_parses (value : option jsstring) :
  Date_parse [] = None ->
  parseDate value = (fun t => mkDate (Some t)) <$> (value ≫= Date_parse).
Proof.
  intros Hempty. unfold Page.parseDate, Page.newDate.
  destruct value as [[|c v]|]; simpl.
  - by rewrite Hempty.
  - by destruct (Date_parse (c :: v)).
  - reflexivity.
Qed.

Lemma tStart_firstValidDate row :
  Date_parse [] = None ->
  tStart row = (fun t => mkDate (Some t)) <$> firstValidDate startKeys row.
Proof.
  intros Hempty. unfold Page.tStart, startKeys, Page.firstValidDate, or_obj.
  rewrite !parseDate_parses by done.
  destruct (row !! js "Timestamp Inicio" ≫= Date_parse); simpl; [done|].
  destruct (row !! js "Timestamp inicio" ≫= Date_parse); simpl; [done|].
  by destruct (row !! js "Inicio" ≫= Date_parse).
Qed.

(** A resolved start instant is a valid time value that the parser gave. *)
Lemma parseDate_Some value d :
  parseDate value = Some d ->
  exists v t, value = Some v /\ Date_parse v = Some t /\ d = mkDate (Some t).
Proof.
  unfold Page.parseDate, Page.newDate.
  destruct value as [[|c v]|]; simpl; try discriminate.
  destruct (Date_parse (c :: v)) as [t|] eqn:Ht; [|discriminate].
  intros [= <-]. by exists (c :: v), t.
Qed.

Lemma tStart_Some row d :
  tStart row = Some d ->
  exists v t, Date_parse v = Some t /\ d = mkDate (Some t).
Proof.
  unfold Page.tStart, or_obj. intros H.
  destruct (parseDate (row !! js "Timestamp Inicio")) as [d1|] eqn:H1.
  { injection H as <-. apply parseDate_Some in H1 as (v & t & _ & ? & ?). eauto. }
  destruct (parseDate (row !! js "Timestamp inicio")) as [d2|] eqn:H2.
  { injection H as <-. apply parseDate_Some in H2 as (v & t & _ & ? & ?). eauto. }
  apply parseDate_Some in H as (v & t & _ & ? & ?). eauto.
Qed.

Lemma startInstant_Some row t :
  startInstant row = Some t <-> tStart row = Some (mkDate (Some t)).
Proof.
  unfold Page.startInstant. split.
  - destruct (tStart row) as [d|] eqn:Hd; [|discriminate]. simpl.
    apply tStart_Some in Hd as (v & t' & _ & ->). simpl. congruence.
  - intros ->. reflexivity.
Qed.

Lemma startInstant_None row :
  startInstant row = None <-> tStart row = None.
Proof.
  unfold Page.startInstant. split.
  - destruct (tStart row) as [d|] eqn:Hd; [|done]. simpl.
    apply tStart_Some in Hd as (v & t' & _ & ->). discriminate.
  - intros ->. reflexivity.
Qed.

(** ** The bounds *)

Lemma bound_empty : bound [] = None.
Proof. reflexivity. Qed.

Lemma bound_set input :
  input <> [] -> bound input = Some (newDate input).
Proof. intros H. unfold Page.bound. by destruct input. Qed.

Lemma inRange_no_bounds row : inRange None None row = true.
Proof. reflexivity. Qed.

Lemma inRange_undated s e row :
  is_Some s \/ is_Some e ->
  tStart row = None ->
  inRange s e row = false.
Proof.
  intros Hb Ht. unfold Page.inRange. rewrite Ht.
  destruct s, e; try reflexivity.
  destruct Hb as [[? H]|[? H]]; discriminate H.
Qed.

(** The day of a time value ends no earlier than the time value. *)
Lemma endOfLocalDay_ge e : e <= endOfLocalDay e.
Proof.
  unfold Page.endOfLocalDay, UTC, MakeDate, Day, LocalTime, MakeTime, msPerDay.
  pose proof (Z.div_mod (e + LocalTZA) 86400000 ltac:(lia)).
  pose proof (Z.mod_pos_bound (e + LocalTZA) 86400000 ltac:(lia)).
  lia.
Qed.

Lemma endOfDay_time e :
  getTime (endOfDay LocalTZA (mkDate (Some e))) = TimeClip (endOfLocalDay e).
Proof. reflexivity. Qed.

(** The upper-bound check against a valid bound, on time values in the
    range of [Date]. *)
Lemma gt_endOfDay t e :
  Z.abs t <= maxTime -> Z.abs e <= maxTime ->
  gt (mkDate (Some t)) (endOfDay LocalTZA (mkDate (Some e)))
  = (endOfLocalDay e <? t).
Proof.
  intros Ht He. unfold gt, lt. rewrite endOfDay_time. simpl.
  unfold TimeClip. pose proof (endOfLocalDay_ge e) as Hge.
  destruct (Z.leb_spec (Z.abs (endOfLocalDay e)) maxTime) as [Hin|Hout].
  - reflexivity.
  - symmetry. apply Z.ltb_ge. lia.
Qed.

(** A valid upper bound adds one comparison to the date condition. *)
Lemma inRange_upper s endDate row e t :
  (forall v x, Date_parse v = Some x -> Z.abs x <= maxTime) ->
  endDate <> [] ->
  Date_parse endDate = Some e ->
  tStart row = Some (mkDate (Some t)) ->
  inRange s (bound endDate) row
  = inRange s None row && (t <=? endOfLocalDay e).
Proof.
  intros Hrange Hset He Ht.
  destruct (tStart_Some _ _ Ht) as (v & t' & Hv & [= <-]).
  pose proof (Hrange _ _ Hv) as Htr. pose proof (Hrange _ _ He) as Her.
  rewrite bound_set by done. unfold Page.inRange. rewrite Ht.
  assert (gt (mkDate (Some t)) (endOfDay LocalTZA (newDate endDate))
          = (endOfLocalDay e <? t)) as ->.
  { unfold Page.newDate. rewrite He. by apply gt_endOfDay. }
  rewrite (Z.leb_antisym (endOfLocalDay e) t).
  destruct s as [sd|].
  - destruct (lt (mkDate (Some t)) sd); simpl; [done|].
    by destruct (endOfLocalDay e <? t).
  - by destruct (endOfLocalDay e <? t).
Qed.

End Host.

End FilterFacts.

(** * The filter's claims *)

Section FilterClaims.

Import JSDate Page FilterFacts.

Local Open Scope Z_scope.

Variable Date_parse : jsstring -> option Z.
Variable LocalTZA : Z.
Variable toLowerCase : jsstring -> jsstring.

Local Abbreviation tStart := (tStart Date_parse).
Local Abbreviation startInstant := (startInstant Date_parse).
Local Abbreviation firstValidDate := (firstValidDate Date_parse).
Local Abbreviation newDate := (newDate Date_parse).
Local Abbreviation bound := (bound Date_parse).
Local Abbreviation inRange := (inRange Date_parse LocalTZA).
Local Abbreviation endOfLocalDay := (endOfLocalDay LocalTZA).
Local Abbreviation matchesText := (matchesText toLowerCase).
Local Abbreviation keep := (keep Date_parse LocalTZA toLowerCase).
Local Abbreviation filtered := (filtered Date_parse LocalTZA toLowerCase).

(** C5. With no search text and no date bound the filter returns its input,
    unchanged and in the same order; so filtering twice with no criteria
    gives what filtering once gives. *)
Theorem C5_no_criteria (data : list JSRecord) :
  filtered data [] [] [] = data
  /\ filtered (filtered data [] [] []) [] [] [] = filtered data [] [] [].
Proof.
  assert (forall l : list JSRecord, filtered l [] [] [] = l) as Hid.
  { intros l. unfold Page.filtered. induction l as [|r l IH]; [reflexivity|].
    simpl. by rewrite IH. }
  by rewrite !Hid.
Qed.

(** C9. The title of a record is the first value that is not empty among
    the keys Evento/titulo, Evento, titulo, in that order, and the empty
    string in the text condition when there is none; the start instant is
    the instant of the first value among the keys Timestamp Inicio,
    Timestamp inicio, Inicio that parses as a date.  A key that is missing,
    or whose value does not parse, is passed over. *)
Theorem C9_fallback_keys (row : JSRecord) :
  Date_parse [] = None ->
  default [] (title row) = default [] (firstNonEmpty titleKeys row)
  /\ (forall v, firstNonEmpty titleKeys row = Some v -> title row = Some v)
  /\ (forall query,
       matchesText query row
       = if nonempty query
         then includes (toLowerCase (default [] (firstNonEmpty titleKeys row)))
                       (toLowerCase query)
         else true)
  /\ tStart row = (fun t => mkDate (Some t)) <$> firstValidDate startKeys row
  /\ startInstant row = firstValidDate startKeys row.
Proof.
  intros Hempty.
  split; [apply title_firstNonEmpty|].
  split; [apply title_found|].
  split. { intros query. unfold Page.matchesText. by rewrite title_firstNonEmpty. }
  split; [by apply tStart_firstValidDate|].
  unfold Page.startInstant. rewrite tStart_firstValidDate by done.
  by destruct (firstValidDate startKeys row).
Qed.

(** C4. When a date bound is set, a record with no resolvable start instant
    is rejected.  When the lower bound is set, a record with a start instant
    passes the date condition exactly when its instant is not strictly before
    the bound and it passes the condition without the lower bound.  When no
    bound is set the date condition holds for every record, so a filter with
    search text only keeps exactly the records that match the text. *)
Theorem C4_lower_bound (startDate endDate query : jsstring) (row : JSRecord) :
  (startDate <> [] \/ endDate <> [] ->
   startInstant row = None ->
   inRange (bound startDate) (bound endDate) row = false
   /\ keep startDate endDate query row = false)
  /\ (forall s t,
       startDate <> [] -> Date_parse startDate = Some s ->
       startInstant row = Some t ->
       inRange (bound startDate) (bound endDate) row
       = negb (t <? s) && inRange None (bound endDate) row)
  /\ (forall s t,
       startDate <> [] -> Date_parse startDate = Some s ->
       startInstant row = Some t ->
       inRange (bound startDate) (bound []) row = false <-> t < s)
  /\ inRange (bound []) (bound []) row = true
  /\ keep [] [] query row = matchesText query row
  /\ (forall data, filtered data [] [] query = List.filter (matchesText query) data).
Proof.
  assert (forall s t e,
    startDate <> [] -> Date_parse startDate = Some s ->
    startInstant row = Some t ->
    inRange (bound startDate) e row = negb (t <? s) && inRange None e row)
    as Hlower.
  { intros s t e Hset Hs Ht. apply startInstant_Some in Ht.
    rewrite bound_set by done. unfold Page.inRange. rewrite Ht.
    unfold lt, Page.newDate. simpl. rewrite Hs.
    destruct (t <? s); simpl; [by destruct e|].
    by destruct e. }
  split.
  { intros Hset Hnone. apply startInstant_None in Hnone.
    assert (inRange (bound startDate) (bound endDate) row = false) as Hr.
    { apply inRange_undated; [|done].
      destruct Hset as [H|H]; [left|right]; rewrite bound_set by done; eauto. }
    split; [done|]. unfold Page.keep. rewrite Hr. apply andb_false_r. }
  split; [intros s t; apply Hlower|].
  split.
  { intros s t Hset Hs Ht. rewrite (Hlower s t) by done.
    rewrite bound_empty, inRange_no_bounds, andb_true_r.
    rewrite negb_false_iff. apply Z.ltb_lt. }
  split; [reflexivity|].
  split; [unfold Page.keep; simpl; apply andb_true_r|].
  intros data. unfold Page.filtered. apply filter_ext.
  intros r. unfold Page.keep. simpl. apply andb_true_r.
Qed.

(** X20. A valid upper bound is widened to 23:59:59.999 local time of the
    local day that holds its instant before the comparison: a record whose
    start instant is after the widened bound is rejected, and any other
    passes the upper-bound check.  So a record that starts at 23:59:00 local
    time of that local day satisfies the date condition, and a record that
    starts at 00:01 of the following local day is excluded.  The local day
    of the instant need not be the day that the bound's string names. *)
Theorem X20_upper_bound_local_day (startDate endDate : jsstring) (row : JSRecord) (e t : Z) :
  (forall v x, Date_parse v = Some x -> Z.abs x <= maxTime) ->
  endDate <> [] ->
  Date_parse endDate = Some e ->
  startInstant row = Some t ->
  LocalTime LocalTZA (endOfLocalDay e)
    = MakeDate (Day (LocalTime LocalTZA e)) (MakeTime 23 59 59 999)
  /\ (endOfLocalDay e < t ->
      inRange (bound startDate) (bound endDate) row = false)
  /\ (t <= endOfLocalDay e ->
      inRange (bound startDate) (bound endDate) row
      = inRange (bound startDate) None row)
  /\ inRange (bound []) (bound endDate) row = (t <=? endOfLocalDay e)
  /\ (LocalTime LocalTZA t
        = MakeDate (Day (LocalTime LocalTZA e)) (MakeTime 23 59 0 0) ->
      inRange (bound []) (bound endDate) row = true)
  /\ (LocalTime LocalTZA t
        = MakeDate (Day (LocalTime LocalTZA e) + 1) (MakeTime 0 1 0 0) ->
      inRange (bound startDate) (bound endDate) row = false).
Proof.
  intros Hrange Hset He Ht.
  apply startInstant_Some in Ht.
  pose proof (fun s =>
    inRange_upper Date_parse LocalTZA s endDate row e t Hrange Hset He Ht)
    as Hupper.
  assert (LocalTime LocalTZA (endOfLocalDay e)
    = MakeDate (Day (LocalTime LocalTZA e)) (MakeTime 23 59 59 999)) as Hlocal.
  { unfold Page.endOfLocalDay, LocalTime, UTC. lia. }
  split; [exact Hlocal|].
  split.
  { intros Hlt. rewrite Hupper.
    rewrite (proj2 (Z.leb_gt t (endOfLocalDay e))) by done.
    apply andb_false_r. }
  split.
  { intros Hle. rewrite Hupper.
    rewrite (proj2 (Z.leb_le t (endOfLocalDay e))) by done.
    apply andb_true_r. }
  split; [by rewrite Hupper, bound_empty, inRange_no_bounds|].
  split.
  { intros Hlate. rewrite Hupper, bound_empty, inRange_no_bounds. simpl.
    apply Z.leb_le. unfold LocalTime, MakeDate, MakeTime in *. lia. }
  intros Hnext. rewrite Hupper.
  rewrite (proj2 (Z.leb_gt t (endOfLocalDay e))); [apply andb_false_r|].
  unfold LocalTime, MakeDate, MakeTime, msPerDay in *. lia.
Qed.

(** X1. When the instant of the upper bound is midnight UTC of a day, which
    is what the date-only value of a date input parses to, and local time is
    behind UTC by less than a day, the local day of the bound is the day
    before: the widened bound is 23:59:59.999 local time of that earlier day,
    and a record that starts at or after local midnight of the bound's own
    day is excluded. *)
Theorem X1_upper_bound_at_utc_midnight
    (startDate endDate : jsstring) (row : JSRecord) (day t : Z) :
  (forall v x, Date_parse v = Some x -> Z.abs x <= maxTime) ->
  endDate <> [] ->
  Date_parse endDate = Some (MakeDate day 0) ->
  - msPerDay < LocalTZA < 0 ->
  startInstant row = Some t ->
  LocalTime LocalTZA (endOfLocalDay (MakeDate day 0))
    = MakeDate (day - 1) (MakeTime 23 59 59 999)
  /\ (MakeDate day 0 <= LocalTime LocalTZA t ->
      inRange (bound startDate) (bound endDate) row = false).
Proof.
  intros Hrange Hset He Hz Ht.
  apply startInstant_Some in Ht.
  assert (Day (LocalTime LocalTZA (MakeDate day 0)) = day - 1) as Hday.
  { unfold Day, LocalTime, MakeDate, msPerDay in *.
    symmetry. apply (Z.div_unique _ _ _ (86400000 + LocalTZA)); lia. }
  assert (LocalTime LocalTZA (endOfLocalDay (MakeDate day 0))
    = MakeDate (day - 1) (MakeTime 23 59 59 999)) as Hlocal.
  { unfold Page.endOfLocalDay. rewrite Hday. unfold LocalTime, UTC. lia. }
  split; [exact Hlocal|].
  intros Hlate.
  rewrite (inRange_upper Date_parse LocalTZA _ endDate row _ t Hrange Hset He Ht).
  rewrite (proj2 (Z.leb_gt t (endOfLocalDay (MakeDate day 0))));
    [apply andb_false_r|].
  unfold LocalTime, MakeDate, MakeTime, msPerDay in *. lia.
Qed.

End FilterClaims.

Lemma sampleParse_range v x :
  Page.sampleParse v = Some x -> (Z.abs x <= JSDate.maxTime)%Z.
Proof.
  unfold Page.sampleParse, JSDate.maxTime.
  repeat case_decide; intros [= <-]; lia.
Defined.

Lemma westParse_range v x :
  Page.westParse v = Some x -> (Z.abs x <= JSDate.maxTime)%Z.
Proof.
  unfold Page.westParse, JSDate.maxTime.
  repeat case_decide; intros [= <-]; lia.
Defined.

Lemma C9_fallback_keys_witness :
  Page.sampleParse [] = None
  /\ default [] (Page.title Page.earlyEvent) = js "Feria"
  /\ Page.startInstant Page.sampleParse Page.earlyEvent = Some 1704873600000%Z.
Proof.
  split; [reflexivity|].
  destruct (C9_fallback_keys Page.sampleParse Page.sampleLower Page.earlyEvent
              eq_refl) as (Htitle & _ & _ & _ & Hstart).
  split.
  - rewrite Htitle. vm_compute. reflexivity.
  - rewrite Hstart. vm_compute. reflexivity.
Defined.

Lemma C4_lower_bound_witness :
  Page.inRange Page.sampleParse Page.sampleTZA
    (Page.bound Page.sampleParse (js "2024-01-15")) (Page.bound Page.sampleParse [])
    Page.undatedEvent = false
  /\ Page.inRange Page.sampleParse Page.sampleTZA
    (Page.bound Page.sampleParse (js "2024-01-15")) (Page.bound Page.sampleParse [])
    Page.earlyEvent = false.
Proof.
  split.
  - apply (proj1 (C4_lower_bound Page.sampleParse Page.sampleTZA Page.sampleLower
                    (js "2024-01-15") [] [] Page.undatedEvent)).
    + left. discriminate.
    + vm_compute. reflexivity.
  - apply (proj1 (proj2 (proj2 (C4_lower_bound Page.sampleParse Page.sampleTZA
                    Page.sampleLower (js "2024-01-15") [] [] Page.earlyEvent)))
             1705276800000%Z 1704873600000%Z).
    + discriminate.
    + vm_compute. reflexivity.
    + vm_compute. reflexivity.
    + lia.
Defined.

Lemma X20_upper_bound_local_day_witness :
  Page.inRange Page.sampleParse Page.sampleTZA
    (Page.bound Page.sampleParse []) (Page.bound Page.sampleParse (js "2024-01-15"))
    Page.lateEvent = true
  /\ Page.inRange Page.sampleParse Page.sampleTZA
    (Page.bound Page.sampleParse []) (Page.bound Page.sampleParse (js "2024-01-15"))
    Page.nextDayEvent = false.
Proof.
  split.
  - apply (proj1 (proj2 (proj2 (proj2 (proj2
      (X20_upper_bound_local_day Page.sampleParse Page.sampleTZA [] (js "2024-01-15")
         Page.lateEvent 1705276800000%Z 1705359540000%Z
         sampleParse_range ltac:(discriminate) eq_refl eq_refl)))))).
    vm_compute. reflexivity.
  - apply (proj2 (proj2 (proj2 (proj2 (proj2
      (X20_upper_bound_local_day Page.sampleParse Page.sampleTZA [] (js "2024-01-15")
         Page.nextDayEvent 1705276800000%Z 1705359660000%Z
         sampleParse_range ltac:(discriminate) eq_refl eq_refl)))))).
    vm_compute. reflexivity.
Defined.

(** C2 on a host five hours behind UTC.  The upper bound is the date-only
    string of 15 January 2024, which parses as midnight UTC of that day, day
    19737 since the epoch, and the record starts at 23:59:00 local time of
    that same day.  The claim keeps the record; the code widens the bound to
    the end of the local day of its instant, which is 14 January, and rejects
    the record: the filter returns nothing. *)
Theorem C2_upper_bound_failing_input :
  Page.westParseLate (js "2024-01-15") = Some (JSDate.MakeDate 19737 0)
  /\ Page.startInstant Page.westParseLate Page.lateEvent = Some 1705381140000%Z
  /\ JSDate.LocalTime Page.westTZA 1705381140000%Z
     = JSDate.MakeDate 19737 (JSDate.MakeTime 23 59 0 0)
  /\ JSDate.LocalTime Page.westTZA (Page.endOfLocalDay Page.westTZA (JSDate.MakeDate 19737 0))
     = JSDate.MakeDate 19736 (JSDate.MakeTime 23 59 59 999)
  /\ Page.inRange Page.westParseLate Page.westTZA
       (Page.bound Page.westParseLate [])
       (Page.bound Page.westParseLate (js "2024-01-15")) Page.lateEvent
     = false
  /\ Page.filtered Page.westParseLate Page.westTZA Page.sampleLower
       [Page.lateEvent] [] (js "2024-01-15") []
     = [].
Proof. repeat split; vm_compute; reflexivity. Qed.

Lemma X1_upper_bound_at_utc_midnight_witness :
  Page.westParse (js "2024-01-15") = Some (JSDate.MakeDate 19737 0)
  /\ JSDate.LocalTime Page.westTZA 1705294860000%Z
     = JSDate.MakeDate 19737 (JSDate.MakeTime 0 1 0 0)
  /\ Page.inRange Page.westParse Page.westTZA
    (Page.bound Page.westParse []) (Page.bound Page.westParse (js "2024-01-15"))
    Page.sameDayEvent = false.
Proof.
  split; [reflexivity|]. split; [reflexivity|].
  apply (proj2 (X1_upper_bound_at_utc_midnight Page.westParse Page.westTZA
           [] (js "2024-01-15") Page.sameDayEvent 19737%Z 1705294860000%Z
           westParse_range ltac:(discriminate) eq_refl
           ltac:(unfold Page.westTZA, JSDate.msPerDay; lia) eq_refl)).
  vm_compute. discriminate.
Defined.

(** * Further properties of the decoder *)

Module ScanFacts.

Import CSV CSVFacts.

(** The loop skips a character only after a double quote, and only a double
    quote. *)
Lemma step_skip_char st c next :
  snd (step st c next) = true -> c = DQUOTE.
Proof.
  unfold step. destruct (inQuotes st).
  - case (N.eqb_spec c DQUOTE); intros ?; [done|]. simpl. discriminate.
  - repeat (case (N.eqb_spec c _); intros ?); simpl; discriminate.
Qed.

Lemma step_not_quote_next st c next next' :
  c <> DQUOTE -> step st c next = step st c next'.
Proof.
  intros Hc. unfold step. apply N.eqb_neq in Hc. by rewrite Hc.
Qed.

Lemma scan_cons_not_quote st c rest :
  c <> DQUOTE -> scan (c :: rest) st = scan rest (fst (step st c None)).
Proof.
  intros Hc. simpl.
  rewrite (step_not_quote_next st c (head rest) None Hc).
  pose proof (step_skip_char st c None) as Hskip.
  destruct (step st c None) as [st' [|]]; simpl in *.
  - by specialize (Hskip eq_refl).
  - by destruct rest.
Qed.

(** The unfolding of the loop at a text of two characters or more. *)
Lemma scan_cons2 st a b rest :
  scan (a :: b :: rest) st
  = if snd (step st a (Some b))
    then scan rest (fst (step st a (Some b)))
    else scan (b :: rest) (fst (step st a (Some b))).
Proof. simpl. by destruct (step st a (Some b)) as [st' [|]]. Qed.

Lemma scan_split_bounded c (Hc : c <> DQUOTE) (n : nat) : forall a b st,
  (length a <= n)%nat ->
  scan (a ++ c :: b) st = scan b (scan (a ++ [c]) st).
Proof.
  induction n as [|n IH]; intros a b st Hlen.
  - destruct a; [|simpl in Hlen; lia]. simpl app.
    by rewrite !scan_cons_not_quote.
  - destruct a as [|x a]; [simpl app; by rewrite !scan_cons_not_quote|].
    simpl in Hlen. destruct a as [|y a].
    + simpl app. rewrite !scan_cons2.
      pose proof (step_skip_next st x (Some c)) as Hskip.
      destruct (snd (step st x (Some c))).
      * specialize (Hskip eq_refl). congruence.
      * apply (IH [] b). simpl. lia.
    + change ((x :: y :: a) ++ c :: b) with (x :: y :: (a ++ c :: b)).
      change ((x :: y :: a) ++ [c]) with (x :: y :: (a ++ [c])).
      rewrite !scan_cons2.
      destruct (snd (step st x (Some y))).
      * apply IH. simpl in Hlen. lia.
      * apply (IH (y :: a) b). simpl in *. lia.
Qed.

Lemma scan_split a c b st :
  c <> DQUOTE ->
  scan (a ++ c :: b) st = scan b (scan (a ++ [c]) st).
Proof. intros Hc. by apply (scan_split_bounded c Hc (length a)). Qed.

(** A text can be cut wherever the character before the cut is not a double
    quote. *)
Lemma scan_app_last pre b st :
  last pre <> Some DQUOTE ->
  scan (pre ++ b) st = scan b (scan pre st).
Proof.
  intros Hlast. destruct (decide (pre = [])) as [->|Hne]; [reflexivity|].
  destruct (exists_last Hne) as (a & c & ->).
  rewrite last_snoc in Hlast.
  rewrite <- app_assoc. simpl. apply scan_split. congruence.
Qed.

(** ** Rows and line feeds *)

Lemma step_rows st c next :
  length (rows (fst (step st c next)))
  = (length (rows st)
     + if N.eqb c LF then (if inQuotes st then 0 else 1) else 0)%nat.
Proof.
  unfold step. destruct (inQuotes st).
  - case (N.eqb_spec c DQUOTE); intros Hq.
    + subst c. simpl. destruct (bool_decide _); simpl; lia.
    + simpl. case (N.eqb_spec c LF); intros ?; lia.
  - case (N.eqb_spec c DQUOTE); intros Hq; [subst c; simpl; lia|].
    case (N.eqb_spec c COMMA); intros Hc; [subst c; simpl; lia|].
    case (N.eqb_spec c LF); intros Hl.
    + simpl. rewrite length_app. simpl. lia.
    + case (N.eqb_spec c CR); intros ?; simpl; lia.
Qed.

Lemma countLF_cons c text :
  countLF (c :: text) = ((if N.eqb LF c then 1 else 0) + countLF text)%nat.
Proof. unfold countLF. cbn [List.filter]. by destruct (N.eqb LF c). Qed.

Lemma scan_rows_bounded (n : nat) : forall text st,
  (length text <= n)%nat ->
  (length (rows (scan text st)) <= length (rows st) + countLF text)%nat.
Proof.
  induction n as [|n IH]; intros text st Hlen.
  - destruct text; [simpl; lia | simpl in Hlen; lia].
  - destruct text as [|a text]; [simpl; lia|].
    simpl in Hlen. destruct text as [|b text].
    + simpl scan. pose proof (step_rows st a None) as Hr.
      rewrite countLF_cons. rewrite (N.eqb_sym LF a).
      destruct (step st a None) as [st' [|]]; simpl in *;
        destruct (a =? LF), (inQuotes st); unfold countLF; simpl; lia.
    + rewrite scan_cons2.
      pose proof (step_rows st a (Some b)) as Hr.
      pose proof (step_skip_char st a (Some b)) as Hsk.
      rewrite (countLF_cons a). rewrite (N.eqb_sym LF a).
      destruct (snd (step st a (Some b))).
      * specialize (Hsk eq_refl). subst a. simpl in Hr.
        pose proof (IH text (fst (step st DQUOTE (Some b)))
                      ltac:(simpl in Hlen; lia)) as Hrec.
        rewrite (countLF_cons b). simpl. lia.
      * pose proof (IH (b :: text) (fst (step st a (Some b)))
                      ltac:(simpl in *; lia)) as Hrec.
        destruct (a =? LF), (inQuotes st); lia.
Qed.

Lemma flush_length st :
  (length (flush st) <= S (length (rows st)))%nat.
Proof.
  unfold flush. destruct (_ || _); [rewrite length_app; simpl|]; lia.
Qed.

(** ** The rest of a text after a quote that nothing closes *)

Lemma scan_quoted_rest content : forall st,
  inQuotes st = true ->
  DQUOTE ∉ content ->
  scan content st = mkState (rows st) (row st) (cell st ++ content) true.
Proof.
  induction content as [|c content IH]; intros st Hq Hn.
  - simpl. rewrite app_nil_r. by destruct st; simpl in *; subst.
  - apply not_elem_of_cons in Hn as [Hc Hn].
    rewrite scan_quoted_literal by (done || congruence).
    rewrite IH by done. simpl. by rewrite <- app_assoc.
Qed.

End ScanFacts.

(** * The decoder reads back what the writer wrote *)

Module WriterFacts.

Import CSV CSVFacts ScanFacts.

Lemma step_plain st c next :
  inQuotes st = false -> special c = false ->
  step st c next = (mkState (rows st) (row st) (cell st ++ [c]) false, false).
Proof.
  intros Hq Hs. unfold special in Hs.
  apply orb_false_elim in Hs as [Hs Hcr].
  apply orb_false_elim in Hs as [Hs Hlf].
  apply orb_false_elim in Hs as [Hdq Hco].
  unfold step. by rewrite Hq, Hdq, Hco, Hlf, Hcr.
Qed.

Lemma scan_plain content : forall st rest,
  inQuotes st = false ->
  Forall (fun c => special c = false) content ->
  scan (content ++ rest) st
  = scan rest (mkState (rows st) (row st) (cell st ++ content) false).
Proof.
  induction content as [|c content IH]; intros st rest Hq Hall.
  - simpl. rewrite app_nil_r. by destruct st; simpl in *; subst.
  - apply Forall_cons in Hall as [Hc Hall].
    change ((c :: content) ++ rest) with (c :: (content ++ rest)).
    rewrite scan_unquoted by done. rewrite step_plain by done.
    simpl fst. rewrite IH by done. simpl. by rewrite <- app_assoc.
Qed.

Lemma scan_writeCell qc st rest :
  inQuotes st = false ->
  writable qc ->
  head rest <> Some DQUOTE ->
  scan (writeCell (fst qc) (snd qc) ++ rest) st
  = scan rest (mkState (rows st) (row st) (cell st ++ snd qc) false).
Proof.
  intros Hq Hw Hrest. destruct qc as [[|] content]; simpl fst; simpl snd.
  - unfold writeCell.
    change ((DQUOTE :: escapeQuotes content ++ [DQUOTE]) ++ rest)
      with (DQUOTE :: (escapeQuotes content ++ [DQUOTE]) ++ rest).
    rewrite <- app_assoc. by apply scan_quoted_field.
  - unfold writeCell. apply scan_plain; [done|].
    destruct Hw as [Hw|Hw]; [discriminate Hw | exact Hw].
Qed.

Lemma scan_comma st rest :
  inQuotes st = false ->
  scan (COMMA :: rest) st
  = scan rest (mkState (rows st) (row st ++ [cell st]) [] false).
Proof. intros Hq. rewrite scan_unquoted by done. unfold step. by rewrite Hq. Qed.

Lemma scan_line_feed st rest :
  inQuotes st = false ->
  scan (LF :: rest) st
  = scan rest (mkState (rows st ++ [row st ++ [cell st]]) [] [] false).
Proof. intros Hq. rewrite scan_unquoted by done. unfold step. by rewrite Hq. Qed.

Lemma scan_writeCells r : forall st rest,
  r <> [] ->
  Forall writable r ->
  inQuotes st = false -> cell st = [] ->
  scan (writeCells r ++ LF :: rest) st
  = scan rest (mkState (rows st ++ [row st ++ map snd r]) [] [] false).
Proof.
  induction r as [|[q c] r IH]; intros st rest Hne Hall Hq Hcell; [done|].
  apply Forall_cons in Hall as [Hw Hall].
  destruct r as [|qc' r].
  - change (writeCells [(q, c)]) with (writeCell q c).
    pose proof (scan_writeCell (q, c) st (LF :: rest) Hq Hw
                  ltac:(discriminate)) as Hcellq.
    cbn [fst snd] in Hcellq. rewrite Hcellq.
    rewrite scan_line_feed by done. simpl. by rewrite Hcell.
  - change (writeCells ((q, c) :: qc' :: r))
      with (writeCell q c ++ COMMA :: writeCells (qc' :: r)).
    rewrite <- app_assoc, <- app_comm_cons.
    pose proof (scan_writeCell (q, c) st
                  (COMMA :: writeCells (qc' :: r) ++ LF :: rest) Hq Hw
                  ltac:(discriminate)) as Hcellq.
    cbn [fst snd] in Hcellq. rewrite Hcellq.
    rewrite scan_comma by done.
    rewrite IH by done. simpl.
    rewrite Hcell. simpl. by rewrite <- app_assoc.
Qed.

Lemma scan_writeRow r st rest :
  r <> [] ->
  Forall writable r ->
  inQuotes st = false -> cell st = [] ->
  scan (writeRow r ++ rest) st
  = scan rest (mkState (rows st ++ [row st ++ map snd r]) [] [] false).
Proof.
  intros. unfold writeRow. rewrite <- app_assoc. by apply scan_writeCells.
Qed.

Lemma scan_writeTable t : forall st,
  Forall (fun r => r <> [] /\ Forall writable r) t ->
  inQuotes st = false -> cell st = [] -> row st = [] ->
  scan (writeTable t) st
  = mkState (rows st ++ map (map snd) t) [] [] false.
Proof.
  unfold writeTable.
  induction t as [|r t IH]; intros st Hall Hq Hcell Hrow.
  - simpl. rewrite app_nil_r. by destruct st; simpl in *; subst.
  - apply Forall_cons in Hall as [[Hne Hw] Hall]. simpl flat_map.
    rewrite scan_writeRow by done.
    rewrite IH by done. simpl. rewrite Hrow. simpl.
    by rewrite <- app_assoc.
Qed.

End WriterFacts.

Import CSV CSVFacts ScanFacts WriterFacts.

(** X2. The decoder reads back what the writer wrote: for a table whose
    rows each have a cell, every cell either written between quotes (with
    its quotes doubled) or free of quote, comma, line feed and carriage
    return, the rows decoded from the written text are the rows of the
    table; so its records are the projection of its data rows that are not
    blank under its first row. *)
Theorem X2_writer_round_trip (t : list (list (bool * jsstring))) :
  Forall (fun r => r <> [] /\ Forall writable r) t ->
  parseRows (writeTable t) = map (map snd) t
  /\ parseCSV (writeTable t)
     = match map (map snd) t with
       | [] => []
       | headers :: data => map (toRecord headers) (List.filter keepRow data)
       end.
Proof.
  intros Hall.
  assert (parseRows (writeTable t) = map (map snd) t) as Hrows.
  { unfold parseRows. by rewrite scan_writeTable. }
  split; [exact Hrows|]. unfold parseCSV. by rewrite Hrows.
Qed.

Lemma X2_writer_round_trip_witness :
  parseRows (writeTable [[(false, js "name"); (true, js "note")];
                         [(true, js "a,b" ++ [LF; DQUOTE]); (false, [])]])
  = [[js "name"; js "note"]; [js "a,b" ++ [LF; DQUOTE]; []]].
Proof.
  apply (proj1 (X2_writer_round_trip
    [[(false, js "name"); (true, js "note")];
     [(true, js "a,b" ++ [LF; DQUOTE]); (false, [])]]
    ltac:(repeat constructor; try discriminate; by right; repeat constructor))).
Defined.

(** X3. A text decodes to at most one row more than it has line feeds, and
    to at most as many records as it has line feeds; a text without a line
    feed decodes to no record. *)
Theorem X3_records_per_line_feed (text : jsstring) :
  (length (parseRows text) <= S (countLF text))%nat
  /\ (length (parseCSV text) <= countLF text)%nat
  /\ (LF ∉ text -> parseCSV text = []).
Proof.
  assert (length (parseRows text) <= S (countLF text))%nat as Hrows.
  { unfold parseRows.
    pose proof (flush_length (scan text init)).
    pose proof (scan_rows_bounded (length text) text init (le_n _)).
    simpl in *. lia. }
  assert (length (parseCSV text) <= countLF text)%nat as Hrecs.
  { unfold parseCSV. destruct (parseRows text) as [|headers data]; simpl in *.
    - lia.
    - rewrite length_map.
      pose proof (List.filter_length_le keepRow data). lia. }
  split; [exact Hrows|]. split; [exact Hrecs|].
  intros Hno.
  assert (countLF text = 0%nat) as Hz.
  { unfold countLF. clear Hrows Hrecs.
    induction text as [|c text IH]; [reflexivity|].
    apply not_elem_of_cons in Hno as [Hc Hno]. cbn [List.filter].
    case (N.eqb_spec LF c); intros E; [congruence|]. by apply IH. }
  rewrite Hz in Hrecs. destruct (parseCSV text); [done | simpl in Hrecs; lia].
Qed.

Lemma X3_records_per_line_feed_witness :
  parseCSV (js "Evento,Inicio") = [].
Proof.
  apply (proj2 (proj2 (X3_records_per_line_feed (js "Evento,Inicio")))).
  vm_compute. intros H.
  by repeat (apply elem_of_cons in H as [H|H]; [discriminate H|]);
    apply elem_of_nil in H.
Defined.

(** X4. The loop can be stopped and resumed at any cut whose last character
    before it is not a double quote: scanning the whole text is scanning the
    part after the cut from the state reached before it.  After a double
    quote it cannot: three double quotes read at once leave a quote in the
    cell, read as two and one they leave the cell empty. *)
Theorem X4_resume_after_cut :
  (forall a c b st,
     c <> DQUOTE ->
     scan (a ++ c :: b) st = scan b (scan (a ++ [c]) st))
  /\ (forall a c b,
       c <> DQUOTE ->
       parseRows (a ++ c :: b) = flush (scan b (scan (a ++ [c]) init)))
  /\ cell (scan ([DQUOTE; DQUOTE] ++ [DQUOTE]) init) = [DQUOTE]
  /\ cell (scan [DQUOTE] (scan [DQUOTE; DQUOTE] init)) = [].
Proof.
  split; [intros a c b st Hc; by apply scan_split|].
  split; [intros a c b Hc; unfold parseRows; by rewrite scan_split|].
  split; reflexivity.
Qed.

Lemma X4_resume_after_cut_witness :
  scan (js "A,B" ++ LF :: js "1,2") init
  = scan (js "1,2") (scan (js "A,B" ++ [LF]) init).
Proof.
  apply (proj1 X4_resume_after_cut (js "A,B") LF (js "1,2") init).
  discriminate.
Defined.

(** X5. A double quote that opens a field and that no later double quote
    closes takes the rest of the text into the cell it opened: commas and
    line feeds after it start no cell and no row.  At the end of the text
    that cell is flushed as the last cell of the last row when it has
    content or its row already has a cell; when the cell is empty and its
    row has no cell, nothing is flushed, so a lone quote on a line of its
    own adds no row. *)
Theorem X5_unclosed_quote (pre content : jsstring) :
  last pre <> Some DQUOTE ->
  inQuotes (scan pre init) = false ->
  DQUOTE ∉ content ->
  scan (pre ++ DQUOTE :: content) init
  = mkState (rows (scan pre init)) (row (scan pre init))
            (cell (scan pre init) ++ content) true
  /\ (cell (scan pre init) ++ content <> [] \/ row (scan pre init) <> [] ->
      parseRows (pre ++ DQUOTE :: content)
      = rows (scan pre init)
        ++ [row (scan pre init) ++ [cell (scan pre init) ++ content]])
  /\ (cell (scan pre init) ++ content = [] -> row (scan pre init) = [] ->
      parseRows (pre ++ DQUOTE :: content) = rows (scan pre init)).
Proof.
  intros Hlast Hq Hn.
  assert (scan (pre ++ DQUOTE :: content) init
          = mkState (rows (scan pre init)) (row (scan pre init))
                    (cell (scan pre init) ++ content) true) as Hscan.
  { rewrite scan_app_last by done.
    rewrite scan_unquoted_open by done.
    by rewrite scan_quoted_rest. }
  split; [exact Hscan|]. unfold parseRows. rewrite Hscan. split.
  - intros Hpending. by rewrite flush_pending.
  - intros Hcell Hrow. by rewrite flush_nothing.
Qed.

Lemma X5_unclosed_quote_witness :
  parseRows (js "A,B" ++ [LF] ++ DQUOTE :: js "1,2" ++ [LF] ++ js "3,4")
  = [[js "A"; js "B"]; [js "1,2" ++ [LF] ++ js "3,4"]]
  /\ parseRows (js "A" ++ [LF] ++ [DQUOTE]) = [[js "A"]].
Proof.
  split.
  - apply (proj1 (proj2 (X5_unclosed_quote (js "A,B" ++ [LF])
                           (js "1,2" ++ [LF] ++ js "3,4")
                           ltac:(discriminate) eq_refl
                           ltac:(vm_compute; intros H;
                                 by repeat (apply elem_of_cons in H as [H|H];
                                            [discriminate H|]);
                                    apply elem_of_nil in H)))).
    left. discriminate.
  - apply (proj2 (proj2 (X5_unclosed_quote (js "A" ++ [LF]) []
                           ltac:(discriminate) eq_refl
                           ltac:(apply not_elem_of_nil)))); reflexivity.
Defined.

(** * Further properties of the records *)

Module TrimFacts.

Lemma last_rev_head (l : jsstring) : last (rev l) = head l.
Proof. destruct l as [|c l]; [reflexivity|]. simpl. apply last_snoc. Qed.

Lemma head_rev_last (l : jsstring) : head (rev l) = last l.
Proof. rewrite <- (rev_involutive l) at 2. symmetry. apply last_rev_head. Qed.

Lemma trimStart_head s c s' :
  trimStart s = c :: s' -> is_white_space c = false.
Proof.
  induction s as [|d s IH]; [discriminate|]. simpl.
  destruct (is_white_space d) eqn:Hd; [exact IH|].
  intros [= <- _]. exact Hd.
Qed.

Lemma trimStart_fixed s :
  (forall c, head s = Some c -> is_white_space c = false) -> trimStart s = s.
Proof.
  destruct s as [|c s]; [reflexivity|]. intros H. simpl.
  by rewrite (H c eq_refl).
Qed.

(** What [trimStart] leaves is an end of the string. *)
Lemma trimStart_last s :
  trimStart s <> [] -> last (trimStart s) = last s.
Proof.
  induction s as [|c s IH]; [done|]. simpl.
  destruct (is_white_space c); [|done].
  intros Hne. rewrite IH by done.
  destruct s; [simpl in Hne; done | reflexivity].
Qed.

Lemma trim_outerSpaceFree s : outerSpaceFree (trim s).
Proof.
  unfold outerSpaceFree, trim, trimEnd. intros c [Hc|Hc].
  - rewrite head_rev_last in Hc.
    assert (trimStart (rev (trimStart s)) <> []) as Hne.
    { intros E. rewrite E in Hc. discriminate. }
    rewrite trimStart_last in Hc by done.
    rewrite last_rev_head in Hc.
    destruct (trimStart s) as [|d u] eqn:Hu; [discriminate|].
    injection Hc as ->. by apply (trimStart_head s c u).
  - rewrite last_rev_head in Hc.
    destruct (trimStart (rev (trimStart s))) as [|d w] eqn:Hw; [discriminate|].
    injection Hc as ->. by apply (trimStart_head _ c w Hw).
Qed.

Lemma trim_fixed s : outerSpaceFree s -> trim s = s.
Proof.
  intros H. unfold trim, trimEnd.
  rewrite (trimStart_fixed s) by (intros c Hc; apply H; by left).
  rewrite trimStart_fixed; [apply rev_involutive|].
  intros c Hc. rewrite head_rev_last in Hc. apply H. by right.
Qed.

Lemma trim_idempotent s : trim (trim s) = trim s.
Proof. apply trim_fixed, trim_outerSpaceFree. Qed.

End TrimFacts.

Module RecordMore.

Import CSV RecordFacts TrimFacts.

(** Every entry of a record is a trimmed header with a trimmed cell, or the
    empty string. *)
Lemma assignFrom_entries cols k v : forall hs idx obj,
  assignFrom idx hs cols obj !! k = Some v ->
  obj !! k = Some v
  \/ exists h i, In h hs /\ k = trim h /\ v = trim (default [] (cols !! i)).
Proof.
  induction hs as [|h hs IH]; intros idx obj Hl; [by left|].
  simpl in Hl. apply IH in Hl as [Hl|(h' & i & Hin & Hk & Hv)].
  - unfold set_prop in Hl. case_decide; [by left|].
    destruct (decide (trim h = k)) as [E|E].
    + rewrite E, lookup_insert_eq in Hl. injection Hl as <-.
      right. exists h, idx. split; [by left | done].
    + rewrite lookup_insert_ne in Hl by done. by left.
  - right. exists h', i. split; [by right | done].
Qed.

Lemma toRecord_entries headers cols k v :
  toRecord headers cols !! k = Some v ->
  exists h i, In h headers /\ k = trim h /\ v = trim (default [] (cols !! i)).
Proof.
  intros Hl. apply assignFrom_entries in Hl as [Hl|Hl]; [|exact Hl].
  by rewrite lookup_empty in Hl.
Qed.

Lemma toRecord_keys headers cols k :
  is_Some (toRecord headers cols !! k)
  <-> In k (map trim headers) /\ k <> js "__proto__".
Proof.
  unfold toRecord. rewrite assignFrom_keys, lookup_empty.
  split; [|tauto]. intros [[? H]|H]; [discriminate H | exact H].
Qed.

(** Among headers with one trimmed name the last one gives the value. *)
Lemma assignFrom_lookup_last cols : forall hs idx obj i h,
  hs !! i = Some h ->
  (forall j h', (i < j)%nat -> hs !! j = Some h' -> trim h' <> trim h) ->
  trim h <> js "__proto__" ->
  assignFrom idx hs cols obj !! trim h
  = Some (trim (default [] (cols !! (idx + i)%nat))).
Proof.
  induction hs as [|h0 hs IH]; intros idx obj i h Hi Hlater Hp; [done|].
  destruct i as [|i]; simpl in Hi.
  - injection Hi as ->. simpl.
    rewrite assignFrom_lookup_other.
    + rewrite lookup_set_prop by done. rewrite decide_True by done.
      by rewrite Nat.add_0_r.
    + intros Hin. apply in_map_iff in Hin as (h' & Heq & Hin').
      apply list_elem_of_In, list_elem_of_lookup in Hin' as [j Hj].
      apply (Hlater (S j) h'); [lia | exact Hj | exact Heq].
  - simpl. rewrite (IH (S idx) _ i h); [| done | | done].
    + by rewrite Nat.add_succ_r.
    + intros j h' Hij Hj. apply (Hlater (S j) h'); [lia | exact Hj].
Qed.

Lemma parseCSV_In text r :
  In r (parseCSV text) ->
  exists headers data cols,
    parseRows text = headers :: data /\ In cols data
    /\ keepRow cols = true /\ r = toRecord headers cols.
Proof.
  unfold parseCSV. destruct (parseRows text) as [|headers data]; [done|].
  intros Hin. apply in_map_iff in Hin as (cols & <- & Hin).
  apply filter_In in Hin as [Hin Hk]. by exists headers, data, cols.
Qed.

End RecordMore.

Import RecordFacts TrimFacts RecordMore.

(** X6. Every key and every value of every decoded record is trimmed: it
    neither starts nor ends with white space, so trimming it again changes
    nothing. *)
Theorem X6_entries_trimmed (text : jsstring) (r : JSRecord) (k v : jsstring) :
  In r (parseCSV text) ->
  r !! k = Some v ->
  outerSpaceFree k /\ outerSpaceFree v /\ trim k = k /\ trim v = v.
Proof.
  intros Hr Hl.
  apply parseCSV_In in Hr as (headers & data & cols & _ & _ & _ & ->).
  apply toRecord_entries in Hl as (h & i & _ & -> & ->).
  repeat split; try apply trim_outerSpaceFree; apply trim_idempotent.
Qed.

Lemma X6_entries_trimmed_witness :
  trim (js "x y") = js "x y".
Proof.
  apply (X6_entries_trimmed (js " k " ++ [LF] ++ js "  x y ")
           {[ js "k" := js "x y" ]} (js "k") (js "x y")).
  - left. vm_compute. reflexivity.
  - vm_compute. reflexivity.
Defined.

(** X7. All records decoded from one text have the same keys. *)
Theorem X7_uniform_keys (text : jsstring) (r1 r2 : JSRecord) :
  In r1 (parseCSV text) -> In r2 (parseCSV text) -> dom r1 = dom r2.
Proof.
  intros H1 H2.
  apply parseCSV_In in H1 as (h1 & d1 & c1 & Hrows1 & _ & _ & ->).
  apply parseCSV_In in H2 as (h2 & d2 & c2 & Hrows2 & _ & _ & ->).
  rewrite Hrows1 in Hrows2. injection Hrows2 as <- <-.
  apply set_eq. intros k. rewrite !elem_of_dom, !toRecord_keys. tauto.
Qed.

Lemma X7_uniform_keys_witness :
  dom ({[ js "A" := js "1"; js "B" := js "2" ]} : JSRecord)
  = dom ({[ js "A" := js "3"; js "B" := [] ]} : JSRecord).
Proof.
  apply (X7_uniform_keys (js "A,B" ++ [LF] ++ js "1,2" ++ [LF] ++ js "3")).
  - left. vm_compute. reflexivity.
  - right. left. vm_compute. reflexivity.
Defined.

(** X8. When several headers have one trimmed name, the record holds under
    that name the cell below the last of them: a header that no later header
    repeats gives its key the trimmed cell at its own index. *)
Theorem X8_last_header_wins (headers cols : list jsstring) (i : nat) (h : jsstring) :
  headers !! i = Some h ->
  (forall j h', (i < j)%nat -> headers !! j = Some h' -> trim h' <> trim h) ->
  trim h <> js "__proto__" ->
  toRecord headers cols !! trim h = Some (trim (default [] (cols !! i))).
Proof.
  intros Hi Hlater Hp. unfold toRecord.
  by rewrite (assignFrom_lookup_last cols headers 0 ∅ i h).
Qed.

Lemma X8_last_header_wins_witness :
  toRecord [js "A"; js "B"; js " A"] [js "1"; js "2"; js "3"] !! trim (js " A")
  = Some (trim (default [] ([js "1"; js "2"; js "3"] !! 2%nat))).
Proof.
  apply X8_last_header_wins.
  - reflexivity.
  - intros j h' Hj Hl. destruct j as [|[|[|j]]]; try lia; discriminate Hl.
  - vm_compute. discriminate.
Defined.

(** X9. A data row whose cells hold white space only, with at least one
    such character, is not dropped: it gives a record, and every value of
    that record is the empty string. *)
Theorem X9_white_space_row
    (text : jsstring) (headers : list jsstring) (data : list (list jsstring))
    (cols : list jsstring) :
  parseRows text = headers :: data ->
  In cols data ->
  existsb nonempty cols = true ->
  Forall (fun v => trim v = []) cols ->
  In (toRecord headers cols) (parseCSV text)
  /\ forall k v, toRecord headers cols !! k = Some v -> v = [].
Proof.
  intros Hrows Hin Hsome Hblank. split.
  - unfold parseCSV. rewrite Hrows. apply in_map, filter_In.
    split; [done|]. unfold keepRow. rewrite Hsome.
    by destruct cols.
  - intros k v Hl. apply toRecord_entries in Hl as (h & i & _ & _ & ->).
    destruct (cols !! i) as [c|] eqn:Hc; simpl; [|reflexivity].
    rewrite Forall_forall in Hblank. apply Hblank.
    by eapply list_elem_of_lookup_2.
Qed.

Lemma X9_white_space_row_witness :
  In (toRecord [js "A"; js "B"] [js " "; []])
     (parseCSV (js "A,B" ++ [LF] ++ js " ," ++ [LF])).
Proof.
  apply (proj1 (X9_white_space_row (js "A,B" ++ [LF] ++ js " ," ++ [LF])
                  [js "A"; js "B"] [[js " "; []]] [js " "; []]
                  eq_refl ltac:(by left) eq_refl
                  ltac:(by repeat constructor))).
Defined.

(** * Further properties of the filter *)

Module FilterMore.

Import JSDate Page FilterFacts.

Local Open Scope Z_scope.

Lemma filter_filter_andb {A} (f g : A -> bool) (l : list A) :
  List.filter f (List.filter g l) = List.filter (fun x => g x && f x) l.
Proof.
  induction l as [|x l IH]; [reflexivity|]. simpl.
  destruct (g x); simpl; [destruct (f x)|]; by rewrite IH.
Qed.

Lemma filter_sublist {A} (f : A -> bool) (l : list A) :
  sublist (List.filter f l) l.
Proof.
  induction l as [|x l IH]; [constructor|]. simpl.
  destruct (f x); by constructor.
Qed.

Lemma startsWith_spec (s sub : jsstring) :
  startsWith s sub = true <-> exists post, s = sub ++ post.
Proof.
  revert s. induction sub as [|c sub IH]; intros s.
  - destruct s; simpl; split; eauto.
  - destruct s as [|d s]; simpl.
    + split; [discriminate | intros [post H]; discriminate H].
    + rewrite andb_true_iff, N.eqb_eq, IH. split.
      * intros [-> [post ->]]. by exists post.
      * intros [post [= -> ->]]. eauto.
Qed.

Lemma includes_spec (s sub : jsstring) :
  includes s sub = true <-> exists pre post, s = pre ++ sub ++ post.
Proof.
  induction s as [|d s IH].
  - cbn [includes]. rewrite orb_false_r, startsWith_spec. split.
    + intros [post H]. by exists [], post.
    + intros (pre & post & H). symmetry in H.
      apply app_eq_nil in H as [-> H]. apply app_eq_nil in H as [-> ->].
      by exists [].
  - cbn [includes]. rewrite orb_true_iff, startsWith_spec, IH. split.
    + intros [[post H]|(pre & post & H)].
      * by exists [], post.
      * exists (d :: pre), post. by rewrite H.
    + intros (pre & post & H). destruct pre as [|d' pre].
      * left. by exists post.
      * right. injection H as -> H. by exists pre, post.
Qed.

Section Host.

Variable Date_parse : jsstring -> option Z.
Variable LocalTZA : Z.

Local Abbreviation tStart := (tStart Date_parse).
Local Abbreviation newDate := (newDate Date_parse).
Local Abbreviation bound := (bound Date_parse).
Local Abbreviation inRange := (inRange Date_parse LocalTZA).

(** A valid lower bound adds one comparison to the date condition. *)
Lemma inRange_lower startDate e row s t :
  startDate <> [] ->
  Date_parse startDate = Some s ->
  tStart row = Some (mkDate (Some t)) ->
  inRange (bound startDate) e row = negb (t <? s) && inRange None e row.
Proof.
  intros Hset Hs Ht.
  rewrite bound_set by done. unfold Page.inRange. rewrite Ht.
  unfold lt, Page.newDate. simpl. rewrite Hs.
  destruct (t <? s); simpl; by destruct e.
Qed.

(** A bound whose date is invalid rejects no record that has a start
    instant. *)
Lemma inRange_invalid_bounds s e row d :
  (forall sd, s = Some sd -> getTime sd = None) ->
  (forall ed, e = Some ed -> getTime ed = None) ->
  tStart row = Some d ->
  inRange s e row = true.
Proof.
  intros Hs He Ht. unfold Page.inRange. rewrite Ht.
  destruct s as [sd|], e as [ed|]; try reflexivity.
  - unfold lt. rewrite (Hs sd eq_refl).
    destruct (getTime d); simpl;
      unfold gt, lt, endOfDay, setHours; by rewrite (He ed eq_refl).
  - unfold lt. rewrite (Hs sd eq_refl). by destruct (getTime d).
  - unfold gt, lt, endOfDay, setHours. by rewrite (He ed eq_refl).
Qed.

Lemma bound_invalid input d :
  input = [] \/ Date_parse input = None ->
  bound input = Some d -> getTime d = None.
Proof.
  intros [->|Hp]; [discriminate|].
  unfold Page.bound. destruct (nonempty input); [|discriminate].
  intros [= <-]. exact Hp.
Qed.

End Host.

End FilterMore.

Section FilterExtras.

Import JSDate Page Card FilterFacts FilterMore.

Local Open Scope Z_scope.

Variable Date_parse : jsstring -> option Z.
Variable LocalTZA : Z.
Variable toLowerCase : jsstring -> jsstring.

Local Abbreviation tStart := (tStart Date_parse).
Local Abbreviation startInstant := (startInstant Date_parse).
Local Abbreviation newDate := (newDate Date_parse).
Local Abbreviation bound := (bound Date_parse).
Local Abbreviation inRange := (inRange Date_parse LocalTZA).
Local Abbreviation endOfLocalDay := (endOfLocalDay LocalTZA).
Local Abbreviation matchesText := (matchesText toLowerCase).
Local Abbreviation keep := (keep Date_parse LocalTZA toLowerCase).
Local Abbreviation filtered := (filtered Date_parse LocalTZA toLowerCase).

(** X10. With both bounds set and valid, a record with a start instant
    satisfies the date condition exactly when the instant is at or after the
    lower bound and at or before the last millisecond of the local day of
    the upper bound: the range is closed at both ends. *)
Theorem X10_both_bounds
    (startDate endDate : jsstring) (row : JSRecord) (s e t : Z) :
  (forall v x, Date_parse v = Some x -> Z.abs x <= maxTime) ->
  startDate <> [] -> endDate <> [] ->
  Date_parse startDate = Some s ->
  Date_parse endDate = Some e ->
  startInstant row = Some t ->
  inRange (bound startDate) (bound endDate) row
  = (s <=? t) && (t <=? endOfLocalDay e).
Proof.
  intros Hrange Hs0 He0 Hs He Ht. apply startInstant_Some in Ht.
  rewrite (inRange_lower Date_parse LocalTZA startDate _ row s t) by done.
  rewrite (inRange_upper Date_parse LocalTZA None endDate row e t) by done.
  rewrite inRange_no_bounds. simpl. by rewrite (Z.leb_antisym t s).
Qed.

(** X11. When the lower bound lies after the last millisecond of the local
    day of the upper bound, the filter keeps no record, whatever the data
    and the search text. *)
Theorem X11_empty_range
    (data : list JSRecord) (startDate endDate query : jsstring) (s e : Z) :
  (forall v x, Date_parse v = Some x -> Z.abs x <= maxTime) ->
  startDate <> [] -> endDate <> [] ->
  Date_parse startDate = Some s ->
  Date_parse endDate = Some e ->
  endOfLocalDay e < s ->
  filtered data startDate endDate query = [].
Proof.
  intros Hrange Hs0 He0 Hs He Hlt. unfold Page.filtered.
  induction data as [|row data IH]; [reflexivity|]. simpl.
  assert (inRange (bound startDate) (bound endDate) row = false) as Hr.
  { destruct (startInstant row) as [t|] eqn:Ht.
    - apply startInstant_Some in Ht.
      rewrite (inRange_lower Date_parse LocalTZA startDate _ row s t) by done.
      rewrite (inRange_upper Date_parse LocalTZA None endDate row e t) by done.
      rewrite inRange_no_bounds. simpl.
      destruct (Z.ltb_spec t s); simpl; [done|].
      apply Z.leb_gt. lia.
    - apply startInstant_None in Ht. apply inRange_undated; [|done].
      left. rewrite bound_set by done. eauto. }
  unfold Page.keep at 1. rewrite Hr, andb_false_r. exact IH.
Qed.

(** X12. A bound that is not empty but does not parse as a date compares
    false with every instant: when each bound is empty or unparseable and
    one of them is not empty, the date condition holds exactly for the
    records that have a start instant. *)
Theorem X12_unparseable_bound
    (startDate endDate : jsstring) (row : JSRecord) :
  startDate = [] \/ Date_parse startDate = None ->
  endDate = [] \/ Date_parse endDate = None ->
  startDate <> [] \/ endDate <> [] ->
  inRange (bound startDate) (bound endDate) row
  = match startInstant row with Some _ => true | None => false end.
Proof.
  intros Hs He Hset. destruct (startInstant row) as [t|] eqn:Ht.
  - apply startInstant_Some in Ht.
    apply (inRange_invalid_bounds Date_parse LocalTZA _ _ row
             (mkDate (Some t))); [| |exact Ht].
    + intros sd. by apply bound_invalid.
    + intros ed. by apply bound_invalid.
  - apply startInstant_None in Ht. apply inRange_undated; [|done].
    destruct Hset as [H|H]; [left|right]; rewrite bound_set by done; eauto.
Qed.

(** X13. Only the local day of the upper bound counts: two upper bounds
    whose instants fall on one local day give the same date condition for
    every record and every lower bound. *)
Theorem X13_upper_bound_same_day
    (s : option Date) (endDate1 endDate2 : jsstring) (row : JSRecord) (e1 e2 : Z) :
  endDate1 <> [] -> endDate2 <> [] ->
  Date_parse endDate1 = Some e1 ->
  Date_parse endDate2 = Some e2 ->
  Day (LocalTime LocalTZA e1) = Day (LocalTime LocalTZA e2) ->
  inRange s (bound endDate1) row = inRange s (bound endDate2) row.
Proof.
  intros H1 H2 Hp1 Hp2 Hday.
  rewrite !bound_set by done. unfold Page.inRange.
  assert (endOfDay LocalTZA (newDate endDate1)
          = endOfDay LocalTZA (newDate endDate2)) as ->; [|reflexivity].
  unfold endOfDay, setHours, Page.newDate. simpl.
  by rewrite Hp1, Hp2, Hday.
Qed.

(** X14. The criteria compose: filtering by dates and then by text, or by
    text and then by dates, gives what filtering by both at once gives, and
    filtering again with the same criteria changes nothing. *)
Theorem X14_criteria_compose
    (data : list JSRecord) (startDate endDate query : jsstring) :
  filtered (filtered data startDate endDate []) [] [] query
  = filtered data startDate endDate query
  /\ filtered (filtered data [] [] query) startDate endDate []
     = filtered data startDate endDate query
  /\ filtered (filtered data startDate endDate query) startDate endDate query
     = filtered data startDate endDate query.
Proof.
  unfold Page.filtered. rewrite !filter_filter_andb.
  repeat split; apply filter_ext; intros row; unfold Page.keep; simpl.
  - rewrite andb_true_r. apply andb_comm.
  - by rewrite andb_true_r.
  - by destruct (matchesText query row && _).
Qed.

(** X15. The filter neither adds nor reorders: its result is a subsequence
    of the data, no longer than the data, and holds exactly the records of
    the data that satisfy the text condition and the date condition. *)
Theorem X15_subsequence
    (data : list JSRecord) (startDate endDate query : jsstring) :
  sublist (filtered data startDate endDate query) data
  /\ (length (filtered data startDate endDate query) <= length data)%nat
  /\ (forall row,
        In row (filtered data startDate endDate query)
        <-> In row data
            /\ matchesText query row = true
            /\ inRange (bound startDate) (bound endDate) row = true).
Proof.
  unfold Page.filtered. split; [apply filter_sublist|].
  split; [apply List.filter_length_le|].
  intros row. rewrite filter_In. unfold Page.keep.
  by rewrite andb_true_iff.
Qed.

(** X16. A record with no title that is not empty is found by no search
    text: the text condition tests the empty string, not the placeholder
    that the card shows in place of the title. *)
Theorem X16_untitled_not_found (query : jsstring) (row : JSRecord) :
  toLowerCase [] = [] ->
  (forall s, toLowerCase s = [] -> s = []) ->
  query <> [] ->
  firstNonEmpty titleKeys row = None ->
  matchesText query row = false /\ cardTitle row = sinTitulo.
Proof.
  intros Hempty Hnon Hq Hnone.
  assert (truthy (title row) = false) as Ht.
  { revert Hnone. unfold title, titleKeys, firstNonEmpty, or_str.
    destruct (row !! js "Evento/titulo") as [[|c1 v1]|]; simpl;
    destruct (row !! js "Evento") as [[|c2 v2]|]; simpl;
    destruct (row !! js "titulo") as [[|c3 v3]|]; simpl; congruence. }
  split.
  - unfold Page.matchesText. rewrite title_firstNonEmpty, Hnone. simpl.
    rewrite Hempty. destruct query as [|c q]; [done|]. simpl.
    destruct (toLowerCase (c :: q)) as [|d l] eqn:Hl; [|reflexivity].
    by apply Hnon in Hl.
  - unfold cardTitle, or_literal. fold (title row). by rewrite Ht.
Qed.

(** X17. The text condition of a search text that is not empty holds
    exactly when the lower-cased title holds the lower-cased search text as
    a run of consecutive characters. *)
Theorem X17_text_condition (query : jsstring) (row : JSRecord) :
  query <> [] ->
  matchesText query row = true
  <-> exists pre post,
        toLowerCase (default [] (title row)) = pre ++ toLowerCase query ++ post.
Proof.
  intros Hq. unfold Page.matchesText.
  destruct query as [|c q]; [done|]. simpl nonempty. cbv iota.
  apply includes_spec.
Qed.

(** X18. The timestamp that a card shows and the instant that the filter
    uses agree on the common case and on the empty case: when the shown
    timestamp parses, its date is the start instant of the record; when the
    card shows no timestamp, the record has no start instant and is rejected
    as soon as a date bound is set. *)
Theorem X18_shown_timestamp
    (startDate endDate query : jsstring) (row : JSRecord) :
  (forall t, Date_parse (cardTs row) = Some t -> cardTs row <> [] ->
             startInstant row = Some t)
  /\ (cardTs row = [] -> startInstant row = None)
  /\ (cardTs row = [] -> startDate <> [] \/ endDate <> [] ->
      keep startDate endDate query row = false).
Proof.
  assert (forall t, Date_parse (cardTs row) = Some t -> cardTs row <> [] ->
                    startInstant row = Some t) as Hshown.
  { intros t. unfold cardTs, Page.startInstant, Page.tStart, Page.parseDate,
      Page.newDate, or_str, or_obj.
    destruct (row !! js "Timestamp Inicio") as [[|c1 v1]|]; simpl;
    destruct (row !! js "Timestamp inicio") as [[|c2 v2]|]; simpl;
    destruct (row !! js "Inicio") as [[|c3 v3]|]; simpl;
      try done; intros ->; done. }
  assert (cardTs row = [] -> startInstant row = None) as Hnone.
  { unfold cardTs, Page.startInstant, Page.tStart, Page.parseDate,
      Page.newDate, or_str, or_obj.
    destruct (row !! js "Timestamp Inicio") as [[|c1 v1]|]; simpl;
    destruct (row !! js "Timestamp inicio") as [[|c2 v2]|]; simpl;
    destruct (row !! js "Inicio") as [[|c3 v3]|]; simpl; done. }
  split; [exact Hshown|]. split; [exact Hnone|].
  intros Hts Hset. apply Hnone, startInstant_None in Hts.
  unfold Page.keep. rewrite (inRange_undated Date_parse LocalTZA); [| |done].
  - apply andb_false_r.
  - destruct Hset as [H|H]; [left|right]; rewrite bound_set by done; eauto.
Qed.

(** X19. A record with a title that is not empty has one title everywhere:
    the card shows it, the modal is headed by it, and the text condition
    tests it.  With nothing selected the modal is headed Detalle. *)
Theorem X19_one_title (row : JSRecord) (v : jsstring) :
  firstNonEmpty titleKeys row = Some v ->
  title row = Some v
  /\ cardTitle row = v
  /\ modalTitle (Some row) = v
  /\ modalTitle None = detalle.
Proof.
  unfold title, cardTitle, modalTitle, optGet, or_literal, titleKeys,
    firstNonEmpty, or_str. simpl.
  destruct (row !! js "Evento/titulo") as [[|c1 v1]|]; simpl;
  destruct (row !! js "Evento") as [[|c2 v2]|]; simpl;
  destruct (row !! js "titulo") as [[|c3 v3]|]; simpl;
    try done; by intros [= <-].
Qed.

End FilterExtras.

Lemma sampleLower_empty s : Page.sampleLower s = [] -> s = [].
Proof. destruct s; [reflexivity | discriminate]. Defined.

Lemma X10_both_bounds_witness :
  Page.inRange Page.sampleParse Page.sampleTZA
    (Page.bound Page.sampleParse (js "2024-01-15"))
    (Page.bound Page.sampleParse (js "2024-01-15")) Page.lateEvent
  = true.
Proof.
  rewrite (X10_both_bounds Page.sampleParse Page.sampleTZA
             (js "2024-01-15") (js "2024-01-15") Page.lateEvent
             1705276800000%Z 1705276800000%Z 1705359540000%Z
             sampleParse_range ltac:(discriminate) ltac:(discriminate)
             eq_refl eq_refl eq_refl).
  vm_compute. reflexivity.
Defined.

Lemma X11_empty_range_witness :
  Page.filtered Page.sampleParse Page.sampleTZA Page.sampleLower
    [Page.lateEvent; Page.earlyEvent; Page.undatedEvent]
    (js "2024-01-16T00:01:00") (js "2024-01-15") []
  = [].
Proof.
  apply (X11_empty_range Page.sampleParse Page.sampleTZA Page.sampleLower
           _ (js "2024-01-16T00:01:00") (js "2024-01-15") []
           1705359660000%Z 1705276800000%Z
           sampleParse_range ltac:(discriminate) ltac:(discriminate)
           eq_refl eq_refl).
  vm_compute. reflexivity.
Defined.

Lemma X12_unparseable_bound_witness :
  Page.inRange Page.sampleParse Page.sampleTZA
    (Page.bound Page.sampleParse (js "pronto")) (Page.bound Page.sampleParse [])
    Page.lateEvent = true
  /\ Page.inRange Page.sampleParse Page.sampleTZA
    (Page.bound Page.sampleParse (js "pronto")) (Page.bound Page.sampleParse [])
    Page.undatedEvent = false.
Proof.
  split.
  - rewrite (X12_unparseable_bound Page.sampleParse Page.sampleTZA
               (js "pronto") [] Page.lateEvent
               ltac:(by right) ltac:(by left) ltac:(left; discriminate)).
    reflexivity.
  - rewrite (X12_unparseable_bound Page.sampleParse Page.sampleTZA
               (js "pronto") [] Page.undatedEvent
               ltac:(by right) ltac:(by left) ltac:(left; discriminate)).
    reflexivity.
Defined.

Lemma X13_upper_bound_same_day_witness :
  Page.inRange Page.sampleParse Page.sampleTZA None
    (Page.bound Page.sampleParse (js "2024-01-15")) Page.nextDayEvent
  = Page.inRange Page.sampleParse Page.sampleTZA None
    (Page.bound Page.sampleParse (js "2024-01-15T23:59:00")) Page.nextDayEvent.
Proof.
  apply (X13_upper_bound_same_day Page.sampleParse Page.sampleTZA None
           (js "2024-01-15") (js "2024-01-15T23:59:00") Page.nextDayEvent
           1705276800000%Z 1705359540000%Z
           ltac:(discriminate) ltac:(discriminate) eq_refl eq_refl eq_refl).
Defined.

Lemma X16_untitled_not_found_witness :
  Page.matchesText Page.sampleLower (js "sin")
    ({[ js "Lugar" := js "Plaza"; js "titulo" := [] ]} : JSRecord) = false
  /\ Card.cardTitle ({[ js "Lugar" := js "Plaza"; js "titulo" := [] ]} : JSRecord)
     = Card.sinTitulo.
Proof.
  apply (X16_untitled_not_found Page.sampleLower (js "sin")
           {[ js "Lugar" := js "Plaza"; js "titulo" := [] ]}
           eq_refl sampleLower_empty ltac:(discriminate) eq_refl).
Defined.

Lemma X17_text_condition_witness :
  Page.matchesText Page.sampleLower (js "ERI") Page.earlyEvent = true.
Proof.
  apply (proj2 (X17_text_condition Page.sampleLower (js "ERI") Page.earlyEvent
                  ltac:(discriminate))).
  exists (js "f"), (js "a"). vm_compute. reflexivity.
Defined.

Lemma X19_one_title_witness :
  Card.cardTitle Page.earlyEvent = js "Feria"
  /\ Card.modalTitle (Some Page.earlyEvent) = js "Feria".
Proof.
  destruct (X19_one_title Page.earlyEvent (js "Feria") eq_refl)
    as (_ & Hcard & Hmodal & _).
  split; [exact Hcard | exact Hmodal].
Defined.
